(** * The component relay: registry, daemon and renderer client

    A registry mints UI components and publishes them on a GraphQL
    subscription; a daemon subscribes to the registry over a WebSocket and
    republishes what it receives; the renderer's client subscribes to the
    daemon.  This file embeds the three programs as state-passing functions
    and proves what their event handlers do.

    Conventions.
    - A handler is a function from the state before to the state after and
      the list of effects it performs, in order.
    - Values the handlers obtain from the environment (the result of
      [uuidv4()], of [new Date().toISOString()], of [Date.now()]) are
      arguments of the request that triggers them. *)

From Stdlib Require Import ZArith.
From stdpp Require Import base list sets strings pretty.

#[local] Set Warnings "-register-all".

(** ** JavaScript values *)

(** A value as [JSON.parse] builds it.  [option JSON] is a JavaScript value
    that may be [undefined] ([None]). *)
Inductive JSON : Type :=
| JNull
| JBool (b : bool)
| JNum (n : Z)
| JStr (s : string)
| JArr (items : list JSON)
| JObj (members : list (string * JSON)).

(** The truth value an [if] gives to a value. *)
Definition truthy (v : option JSON) : bool :=
  match v with
  | None | Some JNull => false
  | Some (JBool b) => b
  | Some (JNum n) => negb (n =? 0)%Z
  | Some (JStr s) => negb (String.eqb s "")
  | Some (JArr _) | Some (JObj _) => true
  end.

(** Reading a property of a parsed object: of several members with the same
    name the last one counts; a missing member reads as [undefined]. *)
Fixpoint member (k : string) (ms : list (string * JSON)) : option JSON :=
  match ms with
  | [] => None
  | (k', v) :: ms' =>
      match member k ms' with
      | Some w => Some w
      | None => if decide (k' = k) then Some v else None
      end
  end.

(** ** Components (the events that are relayed) *)

Module Component.
(** [{ id, type, data, createdAt }]; [type] and [data] are whatever the
    caller passed, possibly [undefined]. *)
Record t : Type := mk {
  id : string;
  type : option JSON;
  data : option JSON;
  createdAt : string
}.
End Component.

(** ** [Map]: insertion-ordered, one entry per key *)

Module JsMap.
Definition t (V : Type) : Type := list (string * V).

Definition empty {V : Type} : t V := [].

(** [m.set(k, v)]: an existing key keeps its position and takes the new
    value; a new key goes to the end. *)
Fixpoint set {V : Type} (k : string) (v : V) (m : t V) : t V :=
  match m with
  | [] => [(k, v)]
  | (k', v') :: m' =>
      if decide (k' = k) then (k', v) :: m' else (k', v') :: set k v m'
  end.

Fixpoint get {V : Type} (k : string) (m : t V) : option V :=
  match m with
  | [] => None
  | (k', v') :: m' => if decide (k' = k) then Some v' else get k m'
  end.

Fixpoint delete {V : Type} (k : string) (m : t V) : t V :=
  match m with
  | [] => []
  | (k', v') :: m' =>
      if decide (k' = k) then m' else (k', v') :: delete k m'
  end.

Definition keys {V : Type} (m : t V) : list string := m.*1.

(** [Array.from(m.values())] *)
Definition values {V : Type} (m : t V) : list V := m.*2.
End JsMap.

(** ** The in-memory [PubSub] both servers instantiate

    [PubSub] is the class of the graphql-subscriptions package; the servers
    create it with [new PubSub()], publish with [publish(trigger, payload)]
    and hand [asyncIterableIterator(trigger)] to the subscription server.
    The package is a dependency, its text is not part of the repository;
    the model below follows the package: an iterator registers its listener
    when its first value is requested, a published payload goes to every
    registered listener of the trigger, and a listener resolves a waiting
    request or else appends the payload to the iterator's push queue.
    Nothing in the package or in the servers bounds that queue. *)

(** What is published: [{ componentUpdate: c }] by the registry,
    [{ rendererUpdate: c }] by the daemon. *)
Inductive Payload : Type :=
| componentUpdate (c : Component.t)
| rendererUpdate (c : Component.t).

Definition payload_component (p : Payload) : Component.t :=
  match p with componentUpdate c | rendererUpdate c => c end.

Module PubSub.
Record AsyncIterator : Type := mkIterator {
  eventsArray : list string;   (* the triggers listened to *)
  allSubscribed : bool;        (* the listener is registered *)
  pullQueue : nat;             (* requests waiting for a value *)
  pushQueue : list Payload;    (* values waiting for a request *)
  resolved : list Payload      (* values handed to the consumer so far *)
}.

Record t : Type := mk { iterators : list AsyncIterator }.

(** [new PubSub()] *)
Definition new : t := {| iterators := [] |}.

Definition newIterator (trigger : string) : AsyncIterator :=
  {| eventsArray := [trigger]; allSubscribed := false;
     pullQueue := 0; pushQueue := []; resolved := [] |}.

Definition pushValue (event : Payload) (it : AsyncIterator) : AsyncIterator :=
  match pullQueue it with
  | S waiting =>
      {| eventsArray := eventsArray it; allSubscribed := allSubscribed it;
         pullQueue := waiting; pushQueue := pushQueue it;
         resolved := resolved it ++ [event] |}
  | O =>
      {| eventsArray := eventsArray it; allSubscribed := allSubscribed it;
         pullQueue := 0; pushQueue := pushQueue it ++ [event];
         resolved := resolved it |}
  end.

Definition pullValue (it : AsyncIterator) : AsyncIterator :=
  match pushQueue it with
  | event :: rest =>
      {| eventsArray := eventsArray it; allSubscribed := allSubscribed it;
         pullQueue := pullQueue it; pushQueue := rest;
         resolved := resolved it ++ [event] |}
  | [] =>
      {| eventsArray := eventsArray it; allSubscribed := allSubscribed it;
         pullQueue := S (pullQueue it); pushQueue := [];
         resolved := resolved it |}
  end.

Definition subscribeAll (it : AsyncIterator) : AsyncIterator :=
  {| eventsArray := eventsArray it; allSubscribed := true;
     pullQueue := pullQueue it; pushQueue := pushQueue it;
     resolved := resolved it |}.

(** [it.next()] *)
Definition next_value (it : AsyncIterator) : AsyncIterator :=
  pullValue (subscribeAll it).

Definition listens (trigger : string) (it : AsyncIterator) : bool :=
  allSubscribed it && bool_decide (trigger ∈ eventsArray it).

Definition deliver (trigger : string) (payload : Payload)
    (it : AsyncIterator) : AsyncIterator :=
  if listens trigger it then pushValue payload it else it.

(** [publish(trigger, payload)]: never fails, returns nothing of use. *)
Definition publish (trigger : string) (payload : Payload) (p : t) : t :=
  {| iterators := deliver trigger payload <$> iterators p |}.

(** [asyncIterableIterator(trigger)]: a new iterator; its handle is its
    position. *)
Definition asyncIterableIterator (trigger : string) (p : t) : t * nat :=
  ({| iterators := iterators p ++ [newIterator trigger] |},
   length (iterators p)).

(** The consumer of iterator [h] asks for its next value. *)
Definition next (h : nat) (p : t) : t :=
  {| iterators := alter next_value h (iterators p) |}.

(** What the consumer of an iterator has received or will receive without
    any further publish. *)
Definition seen (it : AsyncIterator) : list Payload :=
  resolved it ++ pushQueue it.
End PubSub.

(** ** The registry *)

Module Registry.
Record ComponentRegistry : Type := mk {
  components : JsMap.t Component.t;
  pubsub : PubSub.t
}.

(** [new ComponentRegistry()] *)
Definition new : ComponentRegistry :=
  {| components := JsMap.empty; pubsub := PubSub.new |}.

(** [renderComponent({ type, data })]; [uuid] is what [uuidv4()] returns
    and [now] what [new Date().toISOString()] returns during the call. *)
Definition renderComponent (uuid now : string) (type data : option JSON)
    (r : ComponentRegistry) : ComponentRegistry * Component.t :=
  let component :=
    {| Component.id := uuid; Component.type := type;
       Component.data := data; Component.createdAt := now |} in
  ({| components := JsMap.set (Component.id component) component (components r);
      pubsub := PubSub.publish "COMPONENT_UPDATE" (componentUpdate component)
                  (pubsub r) |},
   component).

Definition getComponents (r : ComponentRegistry) : list Component.t :=
  JsMap.values (components r).

(** What a handler answers. *)
Inductive Reply : Type :=
| render_reply (status : Z) (success : bool) (component : Component.t)
    (* [res.json({ success, component })] *)
| message_reply (status : Z) (message : string)
| health_reply (status : Z) (count : nat)
| component_reply (component : Component.t)
| components_reply (listing : list Component.t)
| iterator_reply (handle : nat)
| no_reply.

(** [app.post('/render', ...)]; [body] is [req.body], the object the JSON
    body parser produced. *)
Definition post_render (uuid now : string) (body : list (string * JSON))
    (r : ComponentRegistry) : ComponentRegistry * Reply :=
  let type := member "type" body in
  let data := member "data" body in
  let '(r', component) := renderComponent uuid now type data r in
  (r', render_reply 200 true component).

(** The component the debug endpoint publishes. *)
Definition test_component (now_ms : Z) (now : string) : Component.t :=
  {| Component.id := "test-" +:+ pretty now_ms;
     Component.type := Some (JStr "NOTIFICATION");
     Component.data :=
       Some (JObj [("message", JStr "Test message from debug endpoint")]);
     Component.createdAt := now |}.

(** [app.post('/test-subscription', ...)]; [now_ms] is [Date.now()]. *)
Definition post_test_subscription (now_ms : Z) (now : string)
    (r : ComponentRegistry) : ComponentRegistry * Reply :=
  ({| components := components r;
      pubsub := PubSub.publish "COMPONENT_UPDATE"
                  (componentUpdate (test_component now_ms now)) (pubsub r) |},
   message_reply 200 "Test subscription event published").

(** The resolver of [Subscription.componentUpdate]. *)
Definition subscribe_componentUpdate (r : ComponentRegistry)
    : ComponentRegistry * nat :=
  let '(p, h) := PubSub.asyncIterableIterator "COMPONENT_UPDATE" (pubsub r) in
  ({| components := components r; pubsub := p |}, h).

(** Everything that reaches the registry. *)
Inductive Request : Type :=
| POST_render (uuid now : string) (body : list (string * JSON))
| Mutation_renderComponent (uuid now : string) (type data : JSON)
| Startup_component (uuid now : string)
| POST_test_subscription (now_ms : Z) (now : string)
| Query_components
| GET_health
| Subscription_componentUpdate
| Iterator_next (h : nat).

Definition startup_data : JSON :=
  JObj [("message", JStr "Registry is active and ready!");
        ("type", JStr "SUCCESS")].

Definition serve (q : Request) (r : ComponentRegistry)
    : ComponentRegistry * Reply :=
  match q with
  | POST_render uuid now body => post_render uuid now body r
  | Mutation_renderComponent uuid now type data =>
      let '(r', c) := renderComponent uuid now (Some type) (Some data) r in
      (r', component_reply c)
  | Startup_component uuid now =>
      let '(r', _) :=
        renderComponent uuid now (Some (JStr "NOTIFICATION"))
          (Some startup_data) r in
      (r', no_reply)
  | POST_test_subscription now_ms now => post_test_subscription now_ms now r
  | Query_components => (r, components_reply (getComponents r))
  | GET_health => (r, health_reply 200 (length (getComponents r)))
  | Subscription_componentUpdate =>
      let '(r', h) := subscribe_componentUpdate r in (r', iterator_reply h)
  | Iterator_next h =>
      ({| components := components r; pubsub := PubSub.next h (pubsub r) |},
       no_reply)
  end.

(** The registry after a sequence of requests, oldest first. *)
Definition run (qs : list Request) (r : ComponentRegistry) : ComponentRegistry :=
  foldl (fun r q => (serve q r).1) r qs.

(** The component a request has [renderComponent] mint, if it calls it. *)
Definition rendered (q : Request) : option Component.t :=
  match q with
  | POST_render uuid now body =>
      Some (Component.mk uuid (member "type" body) (member "data" body) now)
  | Mutation_renderComponent uuid now type data =>
      Some (Component.mk uuid (Some type) (Some data) now)
  | Startup_component uuid now =>
      Some (Component.mk uuid (Some (JStr "NOTIFICATION")) (Some startup_data) now)
  | _ => None
  end.

(** The component a request mints and publishes, if it mints one. *)
Definition minted (q : Request) : option Component.t :=
  match q with
  | POST_test_subscription now_ms now => Some (test_component now_ms now)
  | _ => rendered q
  end.

(** The value of [uuidv4()] a request consumed, if it called it. *)
Definition uuid_of (q : Request) : option string :=
  match q with
  | POST_render uuid _ _ | Mutation_renderComponent uuid _ _ _
  | Startup_component uuid _ => Some uuid
  | _ => None
  end.
End Registry.

(** ** The graphql-ws messages *)

(** What a client sends, before [JSON.stringify]. *)
Inductive ClientMessage : Type :=
| connection_init                        (* [{ type: 'connection_init' }] *)
| start (id : string) (query : string)   (* [{ id, type: 'start', payload: { query } }] *)
| stop (id : string).                    (* [{ id, type: 'stop' }] *)

(** What a client receives, after [JSON.parse].  A member that is absent or
    [null] is [None]. *)
Module Message.
Record Data : Type := mkData {
  componentUpdate : option Component.t;
  rendererUpdate : option Component.t
}.

Record Payload : Type := mkPayload {
  errors : option JSON;
  data : option Data
}.

Record t : Type := mk {
  type : string;
  id : option string;
  payload : option Payload
}.

(** [message.payload?.errors] *)
Definition payload_errors (message : t) : option JSON :=
  p ← payload message; errors p.

(** [message.payload?.data?.componentUpdate] *)
Definition payload_componentUpdate (message : t) : option Component.t :=
  p ← payload message; d ← data p; componentUpdate d.

(** [message.payload?.data?.rendererUpdate] *)
Definition payload_rendererUpdate (message : t) : option Component.t :=
  p ← payload message; d ← data p; rendererUpdate d.
End Message.

(** ** The daemon *)

Module Daemon.
(** The daemon holds one socket at a time: [connectToRegistry] runs at
    start and, after that, only from the timer its [onclose] handler sets,
    that is when the socket before is closed.  The handlers therefore
    always concern the socket in [registryWs]. *)
Record WebSocket : Type := mkWebSocket { url : string; protocol : string }.

Record ComponentDaemon : Type := mk {
  components : JsMap.t Component.t;
  pubsub : PubSub.t;
  registryWs : option WebSocket
}.

(** [new ComponentDaemon()] *)
Definition new : ComponentDaemon :=
  {| components := JsMap.empty; pubsub := PubSub.new; registryWs := None |}.

Inductive Effect : Type :=
| new_WebSocket (url protocol : string)
| ws_send (m : ClientMessage)        (* [this.registryWs.send(JSON.stringify(m))] *)
| setTimeout_connectToRegistry (delay : Z)
| console_error (text : string).

(** The subscription document, its white space collapsed. *)
Definition registry_query : string :=
  "subscription { componentUpdate { id type data createdAt } }".

Definition connectToRegistry (d : ComponentDaemon)
    : ComponentDaemon * list Effect :=
  ({| components := components d; pubsub := pubsub d;
      registryWs := Some (mkWebSocket "ws://localhost:4000/graphql" "graphql-ws") |},
   [new_WebSocket "ws://localhost:4000/graphql" "graphql-ws"]).

Definition handleComponentFromRegistry (component : Component.t)
    (d : ComponentDaemon) : ComponentDaemon :=
  {| components := JsMap.set (Component.id component) component (components d);
     pubsub := PubSub.publish "RENDERER_UPDATE" (rendererUpdate component)
                 (pubsub d);
     registryWs := registryWs d |}.

Definition getComponents (d : ComponentDaemon) : list Component.t :=
  JsMap.values (components d).

(** [registryWs.onopen] *)
Definition onopen (d : ComponentDaemon) : ComponentDaemon * list Effect :=
  (d, [ws_send connection_init]).

(** [registryWs.onmessage], on the parsed message: three [if]s in a row. *)
Definition onmessage (message : Message.t) (d : ComponentDaemon)
    : ComponentDaemon * list Effect :=
  let e1 :=
    if decide (Message.type message = "connection_ack")
    then [ws_send (start "registry-sub" registry_query)] else [] in
  let '(d2, e2) :=
    if decide (Message.type message = "data") then
      if truthy (Message.payload_errors message) then
        (d, [console_error "GraphQL subscription errors"])
      else
        match Message.payload_componentUpdate message with
        | Some component => (handleComponentFromRegistry component d, [])
        | None => (d, [])
        end
    else (d, []) in
  let e3 :=
    if decide (Message.type message = "error")
    then [console_error "GraphQL error from registry"] else [] in
  (d2, e1 ++ e2 ++ e3).

(** [registryWs.onclose] *)
Definition onclose (d : ComponentDaemon) : ComponentDaemon * list Effect :=
  (d, [setTimeout_connectToRegistry 2000]).

(** [registryWs.onerror] *)
Definition onerror (d : ComponentDaemon) : ComponentDaemon * list Effect :=
  (d, [console_error "Registry connection error"]).

(** The resolver of [Subscription.rendererUpdate]. *)
Definition subscribe_rendererUpdate (d : ComponentDaemon)
    : ComponentDaemon * nat :=
  let '(p, h) := PubSub.asyncIterableIterator "RENDERER_UPDATE" (pubsub d) in
  ({| components := components d; pubsub := p; registryWs := registryWs d |}, h).

(** Everything that happens to the daemon. *)
Inductive Event : Type :=
| started                       (* [daemon.start()] *)
| ws_open
| ws_message (message : Message.t)
| ws_close
| ws_error
| timer_fired                   (* the timer of [onclose] runs its callback *)
| Subscription_rendererUpdate
| Iterator_next (h : nat)
| Query_components.

Definition handle (ev : Event) (d : ComponentDaemon)
    : ComponentDaemon * list Effect :=
  match ev with
  | started | timer_fired => connectToRegistry d
  | ws_open => onopen d
  | ws_message message => onmessage message d
  | ws_close => onclose d
  | ws_error => onerror d
  | Subscription_rendererUpdate => ((subscribe_rendererUpdate d).1, [])
  | Iterator_next h =>
      ({| components := components d; pubsub := PubSub.next h (pubsub d);
          registryWs := registryWs d |}, [])
  | Query_components => (d, [])
  end.

(** State and effects after a sequence of events, oldest first. *)
Fixpoint run (evs : list Event) (d : ComponentDaemon)
    : ComponentDaemon * list Effect :=
  match evs with
  | [] => (d, [])
  | ev :: evs' =>
      let '(d1, e1) := handle ev d in
      let '(d2, e2) := run evs' d1 in
      (d2, e1 ++ e2)
  end.

(** The delays of the reconnections an effect list schedules. *)
Definition scheduled (es : list Effect) : list Z :=
  omap (fun e => match e with
                 | setTimeout_connectToRegistry delay => Some delay
                 | _ => None
                 end) es.

Definition sent (es : list Effect) : list ClientMessage :=
  omap (fun e => match e with ws_send m => Some m | _ => None end) es.

(** The component a message makes the daemon forward, if any. *)
Definition forwarded (ev : Event) : option Component.t :=
  match ev with
  | ws_message message =>
      if decide (Message.type message = "data") then
        if truthy (Message.payload_errors message) then None
        else Message.payload_componentUpdate message
      else None
  | _ => None
  end.
End Daemon.

(** ** The renderer's client *)

Module Renderer.
(** [WebSocket.readyState] *)
Inductive ReadyState : Type := CONNECTING | OPEN | CLOSING | CLOSED.

#[global] Instance ReadyState_eq_dec : EqDecision ReadyState.
Proof. solve_decision. Defined.

(** A callback is known by a number; calling it is an effect. *)
Definition Callback : Type := nat.

(** The client object.  [ws] names a socket by its creation number. *)
Record GraphQLWebSocketClient : Type := mk {
  url : string;
  ws : option nat;
  subscriptions : JsMap.t Callback;
  connected : bool;
  reconnectAttempts : nat;
  maxReconnectAttempts : nat
}.

(** [new GraphQLWebSocketClient(url)] *)
Definition new (url : string) : GraphQLWebSocketClient :=
  {| url := url; ws := None; subscriptions := JsMap.empty;
     connected := false; reconnectAttempts := 0; maxReconnectAttempts := 5 |}.

(** The client and the sockets it has created so far, each with its
    ready state (the browser's side of the socket objects). *)
Record World : Type := mkWorld {
  sockets : list ReadyState;
  client : GraphQLWebSocketClient
}.

Definition boot (url : string) : World :=
  {| sockets := []; client := new url |}.

(** What [new WebSocket(this.url, 'graphql-ws')] does when [connect()] runs
    it: it returns a socket, or it throws (the browser refuses the url). *)
Inductive NewWebSocket : Type := constructed | threw.

Inductive Effect : Type :=
| new_WebSocket (sock : nat) (url protocol : string)
| ws_send (sock : nat) (m : ClientMessage)   (* [ws.send(JSON.stringify(m))] *)
| ws_close (sock : nat)                      (* [ws.close()] *)
| resolve (sock : nat)    (* of the promise of the [connect()] that made [sock] *)
| reject (sock : nat)
| reject_thrown           (* of the promise of a [connect()] whose constructor threw *)
| call (cb : Callback) (component : Component.t)
| setTimeout_connect (delay : Z)
| console_log (text : string).

Definition renderer_query : string :=
  "subscription { rendererUpdate { id type data createdAt } }".

Definition with_client (c : GraphQLWebSocketClient) (w : World) : World :=
  {| sockets := sockets w; client := c |}.

(** [this.ws && this.ws.readyState === WebSocket.OPEN] *)
Definition ws_is_open (w : World) : bool :=
  match ws (client w) with
  | Some sock => bool_decide (sockets w !! sock = Some OPEN)
  | None => false
  end.

(** [connect()]: a new socket, in state CONNECTING, replaces [this.ws];
    when the constructor throws, the [catch] logs and rejects, and
    [this.ws] stays what it was. *)
Definition connect (made : NewWebSocket) (w : World) : World * list Effect :=
  let c := client w in
  let sock := length (sockets w) in
  match made with
  | constructed =>
      ({| sockets := sockets w ++ [CONNECTING];
          client := {| url := url c; ws := Some sock;
                       subscriptions := subscriptions c; connected := connected c;
                       reconnectAttempts := reconnectAttempts c;
                       maxReconnectAttempts := maxReconnectAttempts c |} |},
       [new_WebSocket sock (url c) "graphql-ws"])
  | threw => (w, [console_log "Failed to create WebSocket"; reject_thrown])
  end.

(** [send(message)] *)
Definition send (message : ClientMessage) (w : World) : World * list Effect :=
  match ws (client w) with
  | Some sock =>
      if bool_decide (sockets w !! sock = Some OPEN)
      then (w, [ws_send sock message])
      else (w, [])
  | None => (w, [])
  end.

(** [startSubscription()] *)
Definition startSubscription (w : World) : World * list Effect :=
  send (start "renderer-subscription" renderer_query) w.

(** [handleMessage(message)] *)
Definition handleMessage (message : Message.t) (w : World)
    : World * list Effect :=
  if decide (Message.type message = "connection_ack") then startSubscription w
  else if decide (Message.type message = "data") then
    match Message.id message ≫= (fun k => JsMap.get k (subscriptions (client w))),
          Message.payload_rendererUpdate message with
    | Some cb, Some component => (w, [call cb component])
    | _, _ => (w, [console_log "No rendererUpdate found in payload"])
    end
  else if decide (Message.type message = "error")
    then (w, [console_log "GraphQL error"])
  else if decide (Message.type message = "complete")
    then (w, [console_log "Subscription completed"])
  else (w, [console_log "Unknown message type"]).

(** [subscribe(callback)]; what it returns is [unsubscribe] below. *)
Definition subscribe (callback : Callback) (w : World) : World :=
  let c := client w in
  with_client
    {| url := url c; ws := ws c;
       subscriptions := JsMap.set "renderer-subscription" callback (subscriptions c);
       connected := connected c; reconnectAttempts := reconnectAttempts c;
       maxReconnectAttempts := maxReconnectAttempts c |} w.

(** The function [subscribe] returned. *)
Definition unsubscribe (w : World) : World * list Effect :=
  let c := client w in
  let w1 :=
    with_client
      {| url := url c; ws := ws c;
         subscriptions := JsMap.delete "renderer-subscription" (subscriptions c);
         connected := connected c; reconnectAttempts := reconnectAttempts c;
         maxReconnectAttempts := maxReconnectAttempts c |} w in
  if connected c then send (stop "renderer-subscription") w1 else (w1, []).

(** [attemptReconnect()] *)
Definition attemptReconnect (w : World) : World * list Effect :=
  let c := client w in
  if decide (reconnectAttempts c < maxReconnectAttempts c) then
    (with_client
       {| url := url c; ws := ws c; subscriptions := subscriptions c;
          connected := connected c;
          reconnectAttempts := S (reconnectAttempts c);
          maxReconnectAttempts := maxReconnectAttempts c |} w,
     [console_log "Reconnecting";
      setTimeout_connect (2000 * Z.of_nat (S (reconnectAttempts c)))])
  else (w, [console_log "Max reconnection attempts reached"]).

(** What [ws.close()] does to the socket: an open or opening socket
    starts closing, a closing or closed one stays as it is. *)
Definition closing (sock : nat) (ss : list ReadyState) : list ReadyState :=
  match ss !! sock with
  | Some CONNECTING | Some OPEN => <[sock := CLOSING]> ss
  | _ => ss
  end.

(** [disconnect()] *)
Definition disconnect (w : World) : World * list Effect :=
  match ws (client w) with
  | Some sock =>
      ({| sockets := closing sock (sockets w); client := client w |},
       [ws_close sock])
  | None => (w, [])
  end.

(** [ws.onopen] of socket [sock] *)
Definition onopen (sock : nat) (w : World) : World * list Effect :=
  let c := client w in
  let w1 :=
    with_client
      {| url := url c; ws := ws c; subscriptions := subscriptions c;
         connected := true; reconnectAttempts := 0;
         maxReconnectAttempts := maxReconnectAttempts c |} w in
  let '(w2, e2) := send connection_init w1 in
  (w2, e2 ++ [resolve sock]).

(** [ws.onclose] *)
Definition onclose (w : World) : World * list Effect :=
  let c := client w in
  attemptReconnect
    (with_client
       {| url := url c; ws := ws c; subscriptions := subscriptions c;
          connected := false; reconnectAttempts := reconnectAttempts c;
          maxReconnectAttempts := maxReconnectAttempts c |} w).

(** [ws.onerror] of socket [sock] *)
Definition onerror (sock : nat) (w : World) : World * list Effect :=
  (w, [reject sock]).

(** Everything that happens to the client: calls of its owner, events of
    its sockets, and the timer of [attemptReconnect] running its callback.
    The two that run [connect()] come with what the constructor did. *)
Inductive Event : Type :=
| connect_called (made : NewWebSocket)
| disconnect_called
| subscribe_called (callback : Callback)
| unsubscribe_called
| ws_open (sock : nat)
| ws_message (sock : nat) (message : Message.t)
| ws_closed (sock : nat)
| ws_error (sock : nat)
| timer_fired (made : NewWebSocket).

Definition set_state (sock : nat) (s : ReadyState) (w : World) : World :=
  {| sockets := <[sock := s]> (sockets w); client := client w |}.

Definition handle (ev : Event) (w : World) : World * list Effect :=
  match ev with
  | connect_called made | timer_fired made => connect made w
  | disconnect_called => disconnect w
  | subscribe_called callback => (subscribe callback w, [])
  | unsubscribe_called => unsubscribe w
  | ws_open sock => onopen sock (set_state sock OPEN w)
  | ws_message sock message => handleMessage message w
  | ws_closed sock => onclose (set_state sock CLOSED w)
  | ws_error sock => onerror sock w
  end.

(** State and effects after a sequence of events, oldest first. *)
Fixpoint run (evs : list Event) (w : World) : World * list Effect :=
  match evs with
  | [] => (w, [])
  | ev :: evs' =>
      let '(w1, e1) := handle ev w in
      let '(w2, e2) := run evs' w1 in
      (w2, e1 ++ e2)
  end.

(** The delays of the reconnections an effect list schedules. *)
Definition scheduled (es : list Effect) : list Z :=
  omap (fun e => match e with setTimeout_connect delay => Some delay | _ => None end) es.

Definition sent (es : list Effect) : list ClientMessage :=
  omap (fun e => match e with ws_send _ m => Some m | _ => None end) es.
End Renderer.

(** ** The owner of the renderer's client *)

Module DisplaySystem.
(** [graphqlClient] comes with the sockets it created;
    [subscriptionCleanup] is true once it holds the function
    [graphqlClient.subscribe] returned, false while it is [null]. *)
Record ComponentDisplaySystem : Type := mk {
  graphqlClient : Renderer.World;
  components : JsMap.t Component.t;
  subscriptionCleanup : bool
}.

Inductive Effect : Type :=
| of_client (e : Renderer.Effect)
| notify (type : string)
| setTimeout_removeComponent (id : string) (delay : JSON).

(** The callback the display system registers with its client. *)
Definition handler : Renderer.Callback := 0.

Definition new (url : string) : ComponentDisplaySystem :=
  {| graphqlClient := Renderer.boot url; components := JsMap.empty;
     subscriptionCleanup := false |}.

(** [connect()] up to its [await]. *)
Definition connect (made : Renderer.NewWebSocket) (s : ComponentDisplaySystem)
    : ComponentDisplaySystem * list Effect :=
  let '(w, es) := Renderer.connect made (graphqlClient s) in
  ({| graphqlClient := w; components := components s;
      subscriptionCleanup := subscriptionCleanup s |}, of_client <$> es).

(** [connect()] after its [await], when the promise resolved. *)
Definition connect_resolved (s : ComponentDisplaySystem)
    : ComponentDisplaySystem * list Effect :=
  ({| graphqlClient := Renderer.subscribe handler (graphqlClient s);
      components := components s; subscriptionCleanup := true |},
   [notify "connected"]).

(** [connect()] after its [await], when the promise was rejected. *)
Definition connect_rejected (s : ComponentDisplaySystem)
    : ComponentDisplaySystem * list Effect :=
  (s, [notify "connection_error"]).

(** [disconnect()] *)
Definition disconnect (s : ComponentDisplaySystem)
    : ComponentDisplaySystem * list Effect :=
  let '(w1, e1) :=
    if subscriptionCleanup s then Renderer.unsubscribe (graphqlClient s)
    else (graphqlClient s, []) in
  let '(w2, e2) := Renderer.disconnect w1 in
  ({| graphqlClient := w2; components := components s;
      subscriptionCleanup := subscriptionCleanup s |},
   (of_client <$> (e1 ++ e2)) ++ [notify "disconnected"]).

(** [component.data?.autoRemove] *)
Definition autoRemove (component : Component.t) : option JSON :=
  match Component.data component with
  | Some (JObj ms) => member "autoRemove" ms
  | _ => None
  end.

(** [handleComponentFromDaemon(component)] *)
Definition handleComponentFromDaemon (component : Component.t)
    (s : ComponentDisplaySystem) : ComponentDisplaySystem * list Effect :=
  ({| graphqlClient := graphqlClient s;
      components := JsMap.set (Component.id component) component (components s);
      subscriptionCleanup := subscriptionCleanup s |},
   notify "components_changed" ::
   match autoRemove component with
   | Some delay =>
       if truthy (Some delay)
       then [setTimeout_removeComponent (Component.id component) delay] else []
   | None => []
   end).

(** [removeComponent(componentId)] *)
Definition removeComponent (componentId : string)
    (s : ComponentDisplaySystem) : ComponentDisplaySystem * list Effect :=
  ({| graphqlClient := graphqlClient s;
      components := JsMap.delete componentId (components s);
      subscriptionCleanup := subscriptionCleanup s |},
   [notify "components_changed"]).
(** [getComponents()] *)
Definition getComponents (s : ComponentDisplaySystem) : list Component.t :=
  JsMap.values (components s).
End DisplaySystem.


(** ** The history of components, as a listing *)

(** Every entry of a history sits under the id of its component. *)
Definition keyed (m : JsMap.t Component.t) : Prop :=
  Forall (fun kc => kc.1 = Component.id kc.2) m.

(** A history in good order: keyed by id, no id twice. *)
Definition history_ok (m : JsMap.t Component.t) : Prop :=
  keyed m ∧ NoDup (JsMap.keys m).

(** What listing a history gives after [set(c.id, c)], from the listing
    before: [c] replaces the entry of its id where it stands, or goes last. *)
Definition listing_after (c : Component.t) (before after : list Component.t) : Prop :=
  if decide (Component.id c ∈ Component.id <$> before)
  then ∃ i, (Component.id <$> before) !! i = Some (Component.id c)
            ∧ after = <[i := c]> before
  else after = before ++ [c].


(** ** What a request does to the [PubSub] *)

Inductive PubSubCall : Type :=
| call_publish (trigger : string) (payload : Payload)
| call_asyncIterableIterator (trigger : string)
| call_next (h : nat).

Definition perform (c : PubSubCall) (p : PubSub.t) : PubSub.t :=
  match c with
  | call_publish trigger payload => PubSub.publish trigger payload p
  | call_asyncIterableIterator trigger => (PubSub.asyncIterableIterator trigger p).1
  | call_next h => PubSub.next h p
  end.

(** The payloads a sequence of calls publishes under [trigger]. *)
Definition published (trigger : string) (cs : list PubSubCall) : list Payload :=
  omap (fun c => match c with
                 | call_publish trigger' payload =>
                     if decide (trigger' = trigger) then Some payload else None
                 | _ => None
                 end) cs.

(** The call a registry request makes, if any. *)
Definition Registry_call (q : Registry.Request) : option PubSubCall :=
  match q with
  | Registry.Subscription_componentUpdate =>
      Some (call_asyncIterableIterator "COMPONENT_UPDATE")
  | Registry.Iterator_next h => Some (call_next h)
  | _ => (fun c => call_publish "COMPONENT_UPDATE" (componentUpdate c))
           <$> Registry.minted q
  end.

(** The call a daemon event makes, if any. *)
Definition Daemon_call (ev : Daemon.Event) : option PubSubCall :=
  match ev with
  | Daemon.Subscription_rendererUpdate =>
      Some (call_asyncIterableIterator "RENDERER_UPDATE")
  | Daemon.Iterator_next h => Some (call_next h)
  | _ => (fun c => call_publish "RENDERER_UPDATE" (rendererUpdate c))
           <$> Daemon.forwarded ev
  end.

(** ** The policies as the specification words them *)

(** A queue bounded by [capacity] that drops its oldest entry when full:
    the queue after enqueuing [event], and by how much the count of dropped
    events grows. *)
Definition drop_oldest_enqueue (capacity : nat) (queue : list Payload)
    (event : Payload) : list Payload * nat :=
  if decide (capacity ≤ length queue) then (tail queue ++ [event], 1)
  else (queue ++ [event], 0).

(** The delays of [cap] reconnection attempts, the n-th after [base * n]. *)
Definition linear_backoff (base : Z) (cap : nat) : list Z :=
  (fun n => base * Z.of_nat n)%Z <$> seq 1 cap.

(** After [losses] transport losses in a row the reconnections scheduled
    are the first [losses] of the policy, and none beyond its cap. *)
Definition follows_backoff (base : Z) (cap losses : nat) (delays : list Z) : Prop :=
  delays = take losses (linear_backoff base cap).

(** The text of a version-4 UUID: 8-4-4-4-12 hexadecimal digits, the
    third group starting with 4 and the fourth with 8, 9, a or b. *)
Definition is_hex (a : Ascii.ascii) : bool :=
  let n := Ascii.nat_of_ascii a in
  ((48 <=? n) && (n <=? 57)) || ((97 <=? n) && (n <=? 102)).

(** The character with the given code: 45 is the hyphen, 52 the digit 4,
    56 and 57 the digits 8 and 9, 97 and 98 the letters a and b. *)
Definition is_char (code : nat) (a : Ascii.ascii) : bool :=
  Ascii.nat_of_ascii a =? code.

Definition is_variant (a : Ascii.ascii) : bool :=
  is_char 56 a || is_char 57 a || is_char 97 a || is_char 98 a.

Definition uuid_v4_pattern : list (Ascii.ascii → bool) :=
  replicate 8 is_hex ++ [is_char 45]
  ++ replicate 4 is_hex ++ [is_char 45]
  ++ is_char 52 :: replicate 3 is_hex ++ [is_char 45]
  ++ is_variant :: replicate 3 is_hex ++ [is_char 45]
  ++ replicate 12 is_hex.

Fixpoint matches (pattern : list (Ascii.ascii → bool)) (s : string) : bool :=
  match pattern, s with
  | [], EmptyString => true
  | p :: pattern', String a s' => p a && matches pattern' s'
  | _, _ => false
  end.

Definition is_uuid_v4 (s : string) : bool := matches uuid_v4_pattern s.

(** Ids are unique over a run of the registry, as far as the generator of
    UUIDs never repeats itself. *)
Definition minted_ids_unique (qs : list Registry.Request) : Prop :=
  NoDup (omap Registry.uuid_of qs) →
  NoDup (Component.id <$> omap Registry.minted qs).

(** The ingress accepted the request. *)
Definition accepted (reply : Registry.Reply) : bool :=
  match reply with
  | Registry.render_reply status success _ => (status =? 200)%Z && success
  | _ => false
  end.

(** The ingress requires [type]: without it the request is rejected. *)
Definition requires_type (body : list (string * JSON)) : Prop :=
  member "type" body = None →
  ∀ uuid now r, accepted (Registry.post_render uuid now body r).2 = false.

(** What the registry's subscription server can send.  The schema of the
    registry declares every field on the way non-null
    ([componentUpdate: Component!], and [id: String!], [type: ComponentType!],
    [data: JSON!], [createdAt: String!] of [Component]), so an execution
    that reports errors yields [data: null]: a payload with errors carries
    no component. *)
Definition from_registry (message : Message.t) : Prop :=
  truthy (Message.payload_errors message) = true →
  Message.payload_componentUpdate message = None.

(** The daemon forwards the component of every data message. *)
Definition relays_every_component (message : Message.t)
    (d : Daemon.ComponentDaemon) : Prop :=
  ∀ c, Message.type message = "data" →
       Message.payload_componentUpdate message = Some c →
       (Daemon.onmessage message d).1 = Daemon.handleComponentFromRegistry c d.

(** After [disconnect()] in world [w], whatever [later] events follow short
    of a new [connect()] by the owner, nothing reconnects: no timer is set
    and no socket is created; and the [disconnect()] of a connected client
    sends a stop. *)
Definition disconnect_is_final (w : Renderer.World)
    (later : list Renderer.Event) : Prop :=
  (∀ made, Renderer.connect_called made ∉ later) →
  let es := (Renderer.run (Renderer.disconnect_called :: later) w).2 in
  Renderer.scheduled es = []
  ∧ (∀ sock url protocol, Renderer.new_WebSocket sock url protocol ∉ es)
  ∧ (Renderer.connected (Renderer.client w) = true →
     stop "renderer-subscription" ∈ Renderer.sent (Renderer.disconnect w).2).

(** Counting events. *)
Definition is_close_event (ev : Renderer.Event) : bool :=
  match ev with Renderer.ws_closed _ => true | _ => false end.

Definition Renderer_closes (evs : list Renderer.Event) : nat :=
  length (List.filter is_close_event evs).

Definition Daemon_closes (evs : list Daemon.Event) : nat :=
  length (List.filter
            (fun ev => match ev with Daemon.ws_close => true | _ => false end) evs).

(** ** Iterators in good order *)

(** A request waits only while no value does. *)
Definition coherent (it : PubSub.AsyncIterator) : Prop :=
  PubSub.pullQueue it = 0 ∨ PubSub.pushQueue it = [].

(** All the calls of a sequence, oldest first. *)
Definition performs (cs : list PubSubCall) (p : PubSub.t) : PubSub.t :=
  foldl (fun p c => perform c p) p cs.

(** What one call does to the iterator with handle [h]. *)
Definition iterator_after (c : PubSubCall) (h : nat)
    (it : PubSub.AsyncIterator) : PubSub.AsyncIterator :=
  match c with
  | call_publish trigger payload => PubSub.deliver trigger payload it
  | call_asyncIterableIterator _ => it
  | call_next h' => if decide (h' = h) then PubSub.next_value it else it
  end.


(** ** Concrete executions *)

(** A registry with one subscriber that has asked for one value and then
    stopped reading, and 257 components rendered since: the first went to
    the waiting request, 256 are queued. *)
Definition uuid_number (n : nat) : string :=
  "00000000-0000-4000-8000-"
  +:+ String.concat "" (replicate (12 - String.length (pretty n)) "0")
  +:+ pretty n.

Definition backlog_render (n : nat) : Registry.Request :=
  Registry.POST_render (uuid_number n) "2024-01-01T00:00:00.000Z"
    [("type", JStr "CARD")].

Definition backlog : list Registry.Request :=
  Registry.Subscription_componentUpdate :: Registry.Iterator_next 0
  :: (backlog_render <$> seq 0 257).

(** Two requests to the debug endpoint within one millisecond. *)
Definition two_debug_requests : list Registry.Request :=
  [Registry.POST_test_subscription 1700000000000 "2023-11-14T22:13:20.000Z";
   Registry.POST_test_subscription 1700000000000 "2023-11-14T22:13:20.000Z"].

Definition card : Component.t :=
  {| Component.id := "0b5e6c1e-3f0a-4c55-9d0e-6a1f2b3c4d5e";
     Component.type := Some (JStr "CARD");
     Component.data := Some (JObj [("title", JStr "Hello")]);
     Component.createdAt := "2024-01-01T00:00:00.000Z" |}.

(** A data message that carries [card]. *)
Definition data_message : Message.t :=
  {| Message.type := "data"; Message.id := Some "registry-sub";
     Message.payload :=
       Some {| Message.errors := None;
               Message.data :=
                 Some {| Message.componentUpdate := Some card;
                         Message.rendererUpdate := None |} |} |}.

(** A data message that carries [card] and a list of errors as well. *)
Definition data_message_with_errors : Message.t :=
  {| Message.type := "data"; Message.id := Some "registry-sub";
     Message.payload :=
       Some {| Message.errors :=
                 Some (JArr [JObj [("message", JStr "partial failure")]]);
               Message.data :=
                 Some {| Message.componentUpdate := Some card;
                         Message.rendererUpdate := None |} |} |}.

Definition connection_ack : Message.t :=
  {| Message.type := "connection_ack"; Message.id := None;
     Message.payload := None |}.

(** A daemon that is subscribed to the registry and has one renderer
    waiting for a component. *)
Definition daemon_serving : Daemon.ComponentDaemon :=
  (Daemon.run [Daemon.started; Daemon.ws_open; Daemon.ws_message connection_ack;
               Daemon.Subscription_rendererUpdate; Daemon.Iterator_next 0]
     Daemon.new).1.

(** ** Reading the transcripts of the clients *)

Definition is_init (m : ClientMessage) : bool :=
  match m with connection_init => true | _ => false end.

Definition is_start (m : ClientMessage) : bool :=
  match m with start _ _ => true | _ => false end.

Definition is_stop (m : ClientMessage) : bool :=
  match m with stop _ => true | _ => false end.

Definition is_ack (message : Message.t) : bool :=
  bool_decide (Message.type message = "connection_ack").

(** The events of the renderer's client that are an acknowledgment, an
    opening. *)
Definition Renderer_ack (ev : Renderer.Event) : bool :=
  match ev with Renderer.ws_message _ message => is_ack message | _ => false end.

Definition Renderer_open (ev : Renderer.Event) : bool :=
  match ev with Renderer.ws_open _ => true | _ => false end.

Definition Daemon_ack (ev : Daemon.Event) : bool :=
  match ev with Daemon.ws_message message => is_ack message | _ => false end.

Definition Daemon_open (ev : Daemon.Event) : bool :=
  match ev with Daemon.ws_open => true | _ => false end.

(** The renderer's client once connected, subscribed by its owner and
    acknowledged by the daemon. *)
Definition renderer_url : string := "ws://localhost:3001/graphql".

Definition renderer_subscribed : Renderer.World :=
  (Renderer.run
     [Renderer.connect_called Renderer.constructed; Renderer.ws_open 0;
      Renderer.subscribe_called DisplaySystem.handler;
      Renderer.ws_message 0 connection_ack]
     (Renderer.boot renderer_url)).1.

(** Its owner at that point. *)
Definition display_connected : DisplaySystem.ComponentDisplaySystem :=
  {| DisplaySystem.graphqlClient := renderer_subscribed;
     DisplaySystem.components := JsMap.empty;
     DisplaySystem.subscriptionCleanup := true |}.

(** The daemon subscribes, then loses the registry: the socket closes, and
    each of the reconnections that follow fails, six closes in all. *)
Definition six_losses : list Daemon.Event :=
  [Daemon.started; Daemon.ws_open; Daemon.ws_message connection_ack]
  ++ [Daemon.ws_close; Daemon.timer_fired]
  ++ concat (replicate 5 [Daemon.ws_error; Daemon.ws_close; Daemon.timer_fired]).

(** The same for the renderer's client. *)
Definition renderer_losses (n : nat) : list Renderer.Event :=
  Renderer.ws_closed 0
  :: concat ((fun k => [Renderer.timer_fired Renderer.constructed;
                        Renderer.ws_error k; Renderer.ws_closed k])
               <$> seq 1 n).

(** How many sockets an effect list creates. *)
Definition Daemon_sockets (es : list Daemon.Effect) : nat :=
  length (List.filter
            (fun e => match e with Daemon.new_WebSocket _ _ => true | _ => false end)
            es).

(** The card again, retitled, under the same id. *)
Definition card_retitled : Component.t :=
  {| Component.id := Component.id card;
     Component.type := Some (JStr "CARD");
     Component.data := Some (JObj [("title", JStr "Hello again")]);
     Component.createdAt := "2024-01-01T00:00:05.000Z" |}.

Definition notification : Component.t :=
  {| Component.id := "7c9e6679-7425-40de-944b-e07fc1f90ae7";
     Component.type := Some (JStr "NOTIFICATION");
     Component.data := Some (JObj [("message", JStr "Saved")]);
     Component.createdAt := "2024-01-01T00:00:03.000Z" |}.

Definition data_message_of (c : Component.t) : Message.t :=
  {| Message.type := "data"; Message.id := Some "registry-sub";
     Message.payload :=
       Some {| Message.errors := None;
               Message.data :=
                 Some {| Message.componentUpdate := Some c;
                         Message.rendererUpdate := None |} |} |}.

(** ** Histories built one component at a time *)

(** [m.set(c.id, c)] for each component of [cs], oldest first. *)
Definition store (cs : list Component.t) (m : JsMap.t Component.t)
    : JsMap.t Component.t :=
  foldl (fun m c => JsMap.set (Component.id c) c m) m cs.

(** A message with another subscription id. *)
Definition with_id (id : option string) (message : Message.t) : Message.t :=
  {| Message.type := Message.type message; Message.id := id;
     Message.payload := Message.payload message |}.

(** ** Reading the runs of the renderer's client *)

(** The callback registered after the owner's calls so far: the one last
    subscribed, unless it was unsubscribed since. *)
Definition callback_after (cb : option Renderer.Callback) (ev : Renderer.Event)
    : option Renderer.Callback :=
  match ev with
  | Renderer.subscribe_called cb' => Some cb'
  | Renderer.unsubscribe_called => None
  | _ => cb
  end.

Definition current_callback (evs : list Renderer.Event)
    : option Renderer.Callback :=
  foldl callback_after None evs.

(** The callbacks an effect list calls, with their arguments. *)
Definition calls (es : list Renderer.Effect)
    : list (Renderer.Callback * Component.t) :=
  omap (fun e => match e with
                 | Renderer.call cb c => Some (cb, c)
                 | _ => None
                 end) es.

(** What a data message delivers to callback [cb]: its component, if it
    names the subscription and carries one. *)
Definition delivery (cb : Renderer.Callback) (message : Message.t)
    : list (Renderer.Callback * Component.t) :=
  if decide (Message.type message = "data") then
    if decide (Message.id message = Some "renderer-subscription") then
      match Message.payload_rendererUpdate message with
      | Some c => [(cb, c)]
      | None => []
      end
    else []
  else [].

(** The events that create a socket: a [connect()] whose constructor
    returned. *)
Definition is_connect_event (ev : Renderer.Event) : bool :=
  match ev with
  | Renderer.connect_called Renderer.constructed
  | Renderer.timer_fired Renderer.constructed => true
  | _ => false
  end.

(** The events that come from the sockets and the timers, not from the
    owner. *)
Definition from_environment (ev : Renderer.Event) : bool :=
  match ev with
  | Renderer.ws_open _ | Renderer.ws_message _ _ | Renderer.ws_closed _
  | Renderer.ws_error _ | Renderer.timer_fired _ => true
  | _ => false
  end.

(** ** The display system at work *)

(** What happens to the components of the display system: one arrives from
    the daemon, or a removal timer runs. *)
Inductive DisplayOp : Type :=
| received (component : Component.t)
| removal (componentId : string).

Definition display_apply (op : DisplayOp) (s : DisplaySystem.ComponentDisplaySystem)
    : DisplaySystem.ComponentDisplaySystem * list DisplaySystem.Effect :=
  match op with
  | received component => DisplaySystem.handleComponentFromDaemon component s
  | removal componentId => DisplaySystem.removeComponent componentId s
  end.

Definition display_run (ops : list DisplayOp)
    (s : DisplaySystem.ComponentDisplaySystem)
    : DisplaySystem.ComponentDisplaySystem :=
  foldl (fun s op => (display_apply op s).1) s ops.

Definition is_received (op : DisplayOp) : bool :=
  match op with received _ => true | removal _ => false end.

(** ** The display system wired to its client

    [ComponentDisplaySystem.connect()] awaits the promise of
    [graphqlClient.connect()] and goes on when the socket that call created
    opens (the promise resolves) or fails first (it rejects); the callback
    it subscribes is [handleComponentFromDaemon].  [awaited] lists the
    sockets whose promise a [connect()] of the display system is suspended
    on.  When the constructor throws, the promise is rejected before the
    [await], which then goes on at once into the [catch].  The promises of
    the reconnections are awaited by nobody: their rejection is logged and
    their resolution has no continuation. *)

Module Page.
Record State : Type := mk {
  system : DisplaySystem.ComponentDisplaySystem;
  awaited : list nat
}.

Definition new (url : string) : State :=
  {| system := DisplaySystem.new url; awaited := [] |}.

Definition world (st : State) : Renderer.World :=
  DisplaySystem.graphqlClient (system st).

Definition with_world (w : Renderer.World) (st : State) : State :=
  {| system := {| DisplaySystem.graphqlClient := w;
                  DisplaySystem.components := DisplaySystem.components (system st);
                  DisplaySystem.subscriptionCleanup :=
                    DisplaySystem.subscriptionCleanup (system st) |};
     awaited := awaited st |}.

(** What an effect of the client sets off in the display system: a call of
    its callback runs [handleComponentFromDaemon]; the settling of an
    awaited promise resumes [connect()], once; everything else is an
    effect of the page as it is. *)
Definition settle (e : Renderer.Effect) (st : State)
    : State * list DisplaySystem.Effect :=
  match e with
  | Renderer.call cb component =>
      if decide (cb = DisplaySystem.handler) then
        let '(s, es) :=
          DisplaySystem.handleComponentFromDaemon component (system st) in
        ({| system := s; awaited := awaited st |}, es)
      else (st, [DisplaySystem.of_client e])
  | Renderer.resolve sock =>
      if decide (sock ∈ awaited st) then
        let '(s, es) := DisplaySystem.connect_resolved (system st) in
        ({| system := s; awaited := filter (fun k => k ≠ sock) (awaited st) |}, es)
      else (st, [])
  | Renderer.reject sock =>
      if decide (sock ∈ awaited st) then
        let '(s, es) := DisplaySystem.connect_rejected (system st) in
        ({| system := s; awaited := filter (fun k => k ≠ sock) (awaited st) |}, es)
      else (st, [])
  | _ => (st, [DisplaySystem.of_client e])
  end.

Fixpoint settle_all (es : list Renderer.Effect) (st : State)
    : State * list DisplaySystem.Effect :=
  match es with
  | [] => (st, [])
  | e :: es' =>
      let '(st1, out1) := settle e st in
      let '(st2, out2) := settle_all es' st1 in
      (st2, out1 ++ out2)
  end.

Inductive Event : Type :=
| connect_called (made : Renderer.NewWebSocket)   (* [displaySystem.connect()] *)
| disconnect_called                       (* [displaySystem.disconnect()] *)
| client_event (ev : Renderer.Event)      (* a socket or the reconnection timer *)
| removal_timer (componentId : string).   (* a timer of [autoRemove] *)

Definition handle (ev : Event) (st : State) : State * list DisplaySystem.Effect :=
  match ev with
  | connect_called made =>
      let sock := length (Renderer.sockets (world st)) in
      let '(s, es) := DisplaySystem.connect made (system st) in
      match made with
      | Renderer.constructed =>
          ({| system := s; awaited := awaited st ++ [sock] |}, es)
      | Renderer.threw =>
          let '(s', es') := DisplaySystem.connect_rejected s in
          ({| system := s'; awaited := awaited st |}, es ++ es')
      end
  | disconnect_called =>
      let '(s, es) := DisplaySystem.disconnect (system st) in
      ({| system := s; awaited := awaited st |}, es)
  | client_event ev =>
      let '(w, es) := Renderer.handle ev (world st) in
      settle_all es (with_world w st)
  | removal_timer componentId =>
      let '(s, es) := DisplaySystem.removeComponent componentId (system st) in
      ({| system := s; awaited := awaited st |}, es)
  end.

Fixpoint run (evs : list Event) (st : State) : State * list DisplaySystem.Effect :=
  match evs with
  | [] => (st, [])
  | ev :: evs' =>
      let '(st1, e1) := handle ev st in
      let '(st2, e2) := run evs' st1 in
      (st2, e1 ++ e2)
  end.

(** The events the sockets and the reconnection timer produce. *)
Definition from_sockets (ev : Event) : bool :=
  match ev with
  | client_event ev => from_environment ev
  | _ => false
  end.

(** The events of a page that reaches the client only through its display
    system: calls of the display system, its removal timers, and what the
    sockets and the reconnection timer do. *)
Definition owned (ev : Event) : bool :=
  match ev with
  | client_event ev => from_environment ev
  | _ => true
  end.

(** The notifications among the effects. *)
Definition notified (es : list DisplaySystem.Effect) : list string :=
  omap (fun e => match e with DisplaySystem.notify type => Some type | _ => None end) es.

(** The messages transmitted on the sockets among the effects. *)
Definition transmitted (es : list DisplaySystem.Effect) : list ClientMessage :=
  Renderer.sent
    (omap (fun e => match e with DisplaySystem.of_client e => Some e | _ => None end) es).

(** The display system listens: its callback is the one subscribed. *)
Definition live (st : State) : Prop :=
  JsMap.get "renderer-subscription"
    (Renderer.subscriptions (Renderer.client (world st)))
  = Some DisplaySystem.handler.

(** The component an event delivers to the display system, if any: that of
    a data message for a subscription whose callback is the display
    system's. *)
Definition delivered (ev : Renderer.Event) (st : State) : option Component.t :=
  match ev with
  | Renderer.ws_message _ message =>
      if decide (Message.type message = "data") then
        match Message.id message
                ≫= (fun k => JsMap.get k
                               (Renderer.subscriptions (Renderer.client (world st)))),
              Message.payload_rendererUpdate message with
        | Some cb, Some c => if decide (cb = DisplaySystem.handler) then Some c else None
        | _, _ => None
        end
      else None
  | _ => None
  end.

(** Whether an event settles a promise the display system awaits, and
    how: [Some true] resolves it, [Some false] rejects it. *)
Definition settles (ev : Renderer.Event) (st : State) : option bool :=
  match ev with
  | Renderer.ws_open sock => if decide (sock ∈ awaited st) then Some true else None
  | Renderer.ws_error sock => if decide (sock ∈ awaited st) then Some false else None
  | _ => None
  end.

(** Nobody listens and nobody waits: no subscription, no awaited promise. *)
Definition deaf (st : State) : Prop :=
  Renderer.subscriptions (Renderer.client (world st)) = [] ∧ awaited st = [].
End Page.

(** A data message of the daemon for the renderer's subscription. *)
Definition renderer_data_of (c : Component.t) : Message.t :=
  {| Message.type := "data"; Message.id := Some "renderer-subscription";
     Message.payload :=
       Some {| Message.errors := None;
               Message.data :=
                 Some {| Message.componentUpdate := None;
                         Message.rendererUpdate := Some c |} |} |}.

(** A client whose owner called [connect()] twice: both sockets opened,
    and [ws] is the second. *)
Definition renderer_connected_twice : Renderer.World :=
  (Renderer.run
     [Renderer.connect_called Renderer.constructed; Renderer.ws_open 0;
      Renderer.connect_called Renderer.constructed; Renderer.ws_open 1]
     (Renderer.boot renderer_url)).1.

(** A page is mounted and shown the card, unmounted, and mounted again:
    after the first [disconnect()] the client reconnects by itself, so that
    the second [connect()] of the display system leaves two sockets open. *)
Definition page_mounted_twice : list Page.Event :=
  [Page.connect_called Renderer.constructed;
   Page.client_event (Renderer.ws_open 0);
   Page.client_event (Renderer.ws_message 0 connection_ack);
   Page.client_event (Renderer.ws_message 0 (renderer_data_of card));
   Page.disconnect_called;
   Page.client_event (Renderer.ws_closed 0);
   Page.client_event (Renderer.timer_fired Renderer.constructed);
   Page.client_event (Renderer.ws_open 1);
   Page.client_event (Renderer.ws_message 1 connection_ack);
   Page.connect_called Renderer.constructed;
   Page.client_event (Renderer.ws_open 2);
   Page.client_event (Renderer.ws_message 2 connection_ack)].

(** The page whose first connection failed before it opened. *)
Definition page_after_failed_connect : Page.State :=
  (Page.run [Page.connect_called Renderer.constructed;
             Page.client_event (Renderer.ws_error 0)]
     (Page.new renderer_url)).1.

(** What follows: the socket closes, the reconnection timer runs, the new
    socket opens and is acknowledged, and a card arrives. *)
Definition reconnection_succeeds : list Page.Event :=
  Page.client_event
    <$> [Renderer.ws_closed 0; Renderer.timer_fired Renderer.constructed;
         Renderer.ws_open 1; Renderer.ws_message 1 connection_ack;
         Renderer.ws_message 1 (renderer_data_of card)].

(** * Proofs *)

(** ** Examples *)

Example set_replaces_in_place :
  JsMap.set "a" 3 [("a", 1); ("b", 2)] = [("a", 3); ("b", 2)].
Proof. reflexivity. Qed.

Example set_appends_a_new_key :
  JsMap.set "c" 3 [("a", 1); ("b", 2)] = [("a", 1); ("b", 2); ("c", 3)].
Proof. reflexivity. Qed.

Example member_takes_the_last :
  member "type" [("type", JStr "CARD"); ("type", JStr "FORM")] = Some (JStr "FORM").
Proof. reflexivity. Qed.

Example uuid_number_7 : uuid_number 7 = "00000000-0000-4000-8000-000000000007".
Proof. reflexivity. Qed.

Example uuid_numbers_are_uuids :
  is_uuid_v4 (uuid_number 256) = true ∧ is_uuid_v4 (Component.id card) = true.
Proof. by split. Qed.

Example version_1_is_not_version_4 :
  is_uuid_v4 "00000000-0000-1000-8000-000000000007" = false.
Proof. reflexivity. Qed.

(** A consumer that waits receives the component at once; one that does not
    finds it queued. *)
Example publish_to_a_waiting_consumer :
  let r := Registry.run
             [Registry.Subscription_componentUpdate; Registry.Iterator_next 0;
              backlog_render 0; backlog_render 1] Registry.new in
  (λ it, (PubSub.pullQueue it, length (PubSub.resolved it), length (PubSub.pushQueue it)))
    <$> PubSub.iterators (Registry.pubsub r)
  = [(0, 1, 1)].
Proof. reflexivity. Qed.

(** The daemon receives the card, a notification and the card again: the
    card keeps the first place and shows its later content. *)
Example daemon_history_of_three :
  Daemon.getComponents
    (Daemon.run [Daemon.ws_message (data_message_of card);
                 Daemon.ws_message (data_message_of notification);
                 Daemon.ws_message (data_message_of card_retitled)] Daemon.new).1
  = [card_retitled; notification].
Proof. reflexivity. Qed.

(** The daemon's handshake with the registry. *)
Example daemon_handshake :
  (Daemon.run [Daemon.started; Daemon.ws_open; Daemon.ws_message connection_ack]
     Daemon.new).2
  = [Daemon.new_WebSocket "ws://localhost:4000/graphql" "graphql-ws";
     Daemon.ws_send connection_init;
     Daemon.ws_send (start "registry-sub" Daemon.registry_query)].
Proof. reflexivity. Qed.

(** The renderer's client receives a component for its subscription and
    calls its owner's callback. *)
Example renderer_delivers_to_the_callback :
  (Renderer.handle
     (Renderer.ws_message 0
        {| Message.type := "data"; Message.id := Some "renderer-subscription";
           Message.payload :=
             Some {| Message.errors := None;
                     Message.data :=
                       Some {| Message.componentUpdate := None;
                               Message.rendererUpdate := Some card |} |} |})
     renderer_subscribed).2
  = [Renderer.call DisplaySystem.handler card].
Proof. reflexivity. Qed.

(** ** [Map] *)

Section JsMapFacts.
Context {V : Type}.
Implicit Types (m : JsMap.t V) (k : string) (v : V).

Lemma JsMap_keys_set k v m :
  JsMap.keys (JsMap.set k v m)
  = if decide (k ∈ JsMap.keys m) then JsMap.keys m else JsMap.keys m ++ [k].
Proof.
  unfold JsMap.keys. induction m as [|[k' v'] m IH]; [done |].
  cbn [JsMap.set]. destruct (decide (k' = k)) as [->|Hne].
  - rewrite !fmap_cons. cbn [fst].
    rewrite decide_True; [done | left].
  - rewrite !fmap_cons, IH. cbn [fst].
    destruct (decide (k ∈ m.*1)) as [Hin|Hout].
    + rewrite decide_True; [done | by right].
    + rewrite decide_False; [done |].
      intros [?|?]%elem_of_cons; congruence.
Qed.

Lemma JsMap_NoDup_set k v m :
  NoDup (JsMap.keys m) → NoDup (JsMap.keys (JsMap.set k v m)).
Proof.
  intros Hnd. rewrite JsMap_keys_set. case_decide; [done |].
  apply NoDup_app. split_and!; [done | | apply NoDup_singleton].
  intros x Hx Hx'. apply list_elem_of_singleton in Hx'. by subst.
Qed.

Lemma JsMap_values_set_new k v m :
  k ∉ JsMap.keys m → JsMap.values (JsMap.set k v m) = JsMap.values m ++ [v].
Proof.
  unfold JsMap.keys, JsMap.values.
  induction m as [|[k' v'] m IH]; [done |].
  rewrite fmap_cons. cbn [fst JsMap.set]. intros Hout.
  apply not_elem_of_cons in Hout as [Hne Hout].
  rewrite decide_False by congruence.
  rewrite !fmap_cons, IH by done. done.
Qed.

Lemma JsMap_values_set_old k v m :
  k ∈ JsMap.keys m →
  ∃ i, JsMap.keys m !! i = Some k
       ∧ JsMap.values (JsMap.set k v m) = <[i := v]> (JsMap.values m).
Proof.
  unfold JsMap.keys, JsMap.values.
  induction m as [|[k' v'] m IH]; [by intros ?%elem_of_nil |].
  rewrite fmap_cons. cbn [fst JsMap.set]. intros Hin.
  destruct (decide (k' = k)) as [->|Hne].
  - by exists 0.
  - apply elem_of_cons in Hin as [?|Hin]; [congruence |].
    destruct (IH Hin) as (i & Hi & Hset).
    exists (S i). split; [done |]. rewrite !fmap_cons, Hset. done.
Qed.

Lemma JsMap_length_set k v m : length m ≤ length (JsMap.set k v m).
Proof.
  induction m as [|[k' v'] m IH]; simpl; [lia |].
  case_decide; simpl; lia.
Qed.

Lemma JsMap_get_set k k' v m :
  JsMap.get k' (JsMap.set k v m)
  = if decide (k = k') then Some v else JsMap.get k' m.
Proof.
  induction m as [|[k0 v0] m IH]; simpl.
  - by destruct (decide (k = k')).
  - destruct (decide (k0 = k)) as [->|Hne]; simpl.
    + by destruct (decide (k = k')).
    + rewrite IH. destruct (decide (k0 = k')) as [->|]; [|done].
      by rewrite decide_False.
Qed.
Lemma JsMap_get_delete_ne k k' m :
  k' ≠ k → JsMap.get k (JsMap.delete k' m) = JsMap.get k m.
Proof.
  intros Hne. induction m as [|[k0 v0] m IH]; [done |]. simpl.
  destruct (decide (k0 = k')) as [->|Hk0]; simpl.
  - by rewrite decide_False.
  - by rewrite IH.
Qed.
End JsMapFacts.

(** ** The history of components *)

Lemma keyed_set c m : keyed m → keyed (JsMap.set (Component.id c) c m).
Proof.
  unfold keyed. induction m as [|[k' v'] m IH]; simpl; intros Hk.
  - by constructor.
  - inversion Hk; subst. case_decide; constructor; simpl in *; auto.
Qed.

Lemma keyed_ids m : keyed m → Component.id <$> JsMap.values m = JsMap.keys m.
Proof.
  unfold keyed, JsMap.values, JsMap.keys.
  induction 1 as [|[k c] m Hk _ IH]; [done |].
  rewrite !fmap_cons, IH. simpl in *. by rewrite Hk.
Qed.

Lemma history_set c m :
  history_ok m →
  history_ok (JsMap.set (Component.id c) c m)
  ∧ listing_after c (JsMap.values m) (JsMap.values (JsMap.set (Component.id c) c m)).
Proof.
  intros [Hk Hnd]. split.
  - split; [by apply keyed_set | by apply JsMap_NoDup_set].
  - unfold listing_after. rewrite (keyed_ids m Hk). case_decide as Hin.
    + by apply JsMap_values_set_old.
    + by apply JsMap_values_set_new.
Qed.

Lemma history_listing_NoDup m :
  history_ok m → NoDup (Component.id <$> JsMap.values m).
Proof. intros [Hk Hnd]. by rewrite keyed_ids. Qed.

Lemma listing_after_length c before after :
  listing_after c before after → length before ≤ length after.
Proof.
  unfold listing_after. case_decide.
  - intros (i & _ & ->). by rewrite length_insert.
  - intros ->. rewrite length_app. lia.
Qed.

(** *** In the registry *)

Lemma Registry_run_snoc qs q r :
  Registry.run (qs ++ [q]) r = (Registry.serve q (Registry.run qs r)).1.
Proof. unfold Registry.run. by rewrite foldl_app. Qed.

Lemma Registry_serve_components q r :
  Registry.components (Registry.serve q r).1
  = match Registry.rendered q with
    | Some c => JsMap.set (Component.id c) c (Registry.components r)
    | None => Registry.components r
    end.
Proof. by destruct q. Qed.

Lemma Registry_serve_history q r :
  history_ok (Registry.components r) →
  history_ok (Registry.components (Registry.serve q r).1).
Proof.
  intros Hok. rewrite Registry_serve_components.
  destruct (Registry.rendered q) as [c|]; [|done]. by apply history_set.
Qed.

Lemma Registry_run_history qs :
  history_ok (Registry.components (Registry.run qs Registry.new)).
Proof.
  induction qs as [|q qs IH] using rev_ind.
  - split; [constructor | constructor].
  - rewrite Registry_run_snoc. by apply Registry_serve_history.
Qed.

(** *** In the daemon *)

Lemma Daemon_run_snoc evs ev d :
  Daemon.run (evs ++ [ev]) d
  = let '(d1, e1) := Daemon.run evs d in
    let '(d2, e2) := Daemon.handle ev d1 in (d2, e1 ++ e2).
Proof.
  revert d. induction evs as [|ev' evs IH]; intros d; simpl.
  - destruct (Daemon.handle ev d) as [d2 e2]. by rewrite app_nil_r.
  - destruct (Daemon.handle ev' d) as [d1 e1]. rewrite IH.
    destruct (Daemon.run evs d1) as [d2 e2].
    destruct (Daemon.handle ev d2) as [d3 e3]. by rewrite app_assoc.
Qed.

Lemma Daemon_handle_state ev d :
  (Daemon.handle ev d).1
  = match Daemon.forwarded ev with
    | Some c => Daemon.handleComponentFromRegistry c d
    | None =>
        match ev with
        | Daemon.started | Daemon.timer_fired => (Daemon.connectToRegistry d).1
        | Daemon.Subscription_rendererUpdate => (Daemon.subscribe_rendererUpdate d).1
        | Daemon.Iterator_next h =>
            Daemon.mk (Daemon.components d) (PubSub.next h (Daemon.pubsub d))
              (Daemon.registryWs d)
        | _ => d
        end
    end.
Proof.
  destruct ev as [| |m| | | | | |]; try done.
  unfold Daemon.forwarded. simpl. unfold Daemon.onmessage.
  destruct (decide (Message.type m = "data")); [|done].
  destruct (truthy (Message.payload_errors m)); [done |].
  by destruct (Message.payload_componentUpdate m).
Qed.

Lemma Daemon_handle_components ev d :
  Daemon.components (Daemon.handle ev d).1
  = match Daemon.forwarded ev with
    | Some c => JsMap.set (Component.id c) c (Daemon.components d)
    | None => Daemon.components d
    end.
Proof.
  rewrite Daemon_handle_state.
  destruct (Daemon.forwarded ev) as [c|] eqn:Hf; [done |]. by destruct ev.
Qed.

Lemma Daemon_run_history evs :
  history_ok (Daemon.components (Daemon.run evs Daemon.new).1).
Proof.
  induction evs as [|ev evs IH] using rev_ind.
  - split; constructor.
  - rewrite Daemon_run_snoc.
    destruct (Daemon.run evs Daemon.new) as [d1 e1]. simpl in IH.
    pose proof (Daemon_handle_components ev d1) as Hc.
    destruct (Daemon.handle ev d1) as [d2 e2]. simpl in *. rewrite Hc.
    destruct (Daemon.forwarded ev) as [c|]; [|done]. by apply history_set.
Qed.

(** C9: in the registry and in the daemon the history is a map keyed by
    component id.  After any sequence of requests (events) the listing has
    no id twice; a component stored under an id already present takes the
    place of the earlier entry, a component with a new id goes to the end
    and every other entry stays where it was (insertion order); and no
    request (event) makes the listing shorter. *)
Theorem history_keyed_ordered_never_pruned :
  (∀ (qs : list Registry.Request) (q : Registry.Request),
     let r := Registry.run qs Registry.new in
     let r' := (Registry.serve q r).1 in
     NoDup (Component.id <$> Registry.getComponents r)
     ∧ length (Registry.getComponents r) ≤ length (Registry.getComponents r')
     ∧ match Registry.rendered q with
       | Some c =>
           listing_after c (Registry.getComponents r) (Registry.getComponents r')
       | None => Registry.getComponents r' = Registry.getComponents r
       end)
  ∧ (∀ (evs : list Daemon.Event) (ev : Daemon.Event),
       let d := (Daemon.run evs Daemon.new).1 in
       let d' := (Daemon.handle ev d).1 in
       NoDup (Component.id <$> Daemon.getComponents d)
       ∧ length (Daemon.getComponents d) ≤ length (Daemon.getComponents d')
       ∧ match Daemon.forwarded ev with
         | Some c =>
             listing_after c (Daemon.getComponents d) (Daemon.getComponents d')
         | None => Daemon.getComponents d' = Daemon.getComponents d
         end).
Proof.
  split.
  - intros qs q r r'. pose proof (Registry_run_history qs) as Hok.
    fold r in Hok. unfold Registry.getComponents, r'.
    rewrite Registry_serve_components.
    split; [by apply history_listing_NoDup |].
    destruct (Registry.rendered q) as [c|]; [|done].
    destruct (history_set c _ Hok) as [_ Hl].
    split; [by eapply listing_after_length | done].
  - intros evs ev d d'. pose proof (Daemon_run_history evs) as Hok.
    fold d in Hok. unfold Daemon.getComponents, d'.
    rewrite Daemon_handle_components.
    split; [by apply history_listing_NoDup |].
    destruct (Daemon.forwarded ev) as [c|]; [|done].
    destruct (history_set c _ Hok) as [_ Hl].
    split; [by eapply listing_after_length | done].
Qed.

(** ** The [PubSub] *)

Lemma pushValue_seen e it :
  coherent it →
  coherent (PubSub.pushValue e it)
  ∧ PubSub.seen (PubSub.pushValue e it) = PubSub.seen it ++ [e].
Proof.
  unfold coherent, PubSub.seen, PubSub.pushValue.
  destruct (PubSub.pullQueue it) as [|n] eqn:Hq; simpl.
  - intros _. split; [by left | by rewrite app_assoc].
  - intros [?| ->]; [done |]. split; [by right | by rewrite !app_nil_r].
Qed.

Lemma pullValue_seen it :
  coherent it →
  coherent (PubSub.pullValue it)
  ∧ PubSub.seen (PubSub.pullValue it) = PubSub.seen it.
Proof.
  unfold coherent, PubSub.seen, PubSub.pullValue.
  destruct (PubSub.pushQueue it) as [|x q] eqn:Hq; simpl.
  - intros _. split; [by right | done].
  - intros [H0|?]; [|done]. split; [by left | by rewrite <- app_assoc].
Qed.

Lemma next_value_seen it :
  coherent it →
  coherent (PubSub.next_value it)
  ∧ PubSub.seen (PubSub.next_value it) = PubSub.seen it.
Proof.
  intros Hc. unfold PubSub.next_value.
  by apply (pullValue_seen (PubSub.subscribeAll it)).
Qed.

Lemma pushValue_fields e it :
  PubSub.eventsArray (PubSub.pushValue e it) = PubSub.eventsArray it
  ∧ PubSub.allSubscribed (PubSub.pushValue e it) = PubSub.allSubscribed it.
Proof. unfold PubSub.pushValue. by destruct (PubSub.pullQueue it). Qed.

Lemma next_value_fields it :
  PubSub.eventsArray (PubSub.next_value it) = PubSub.eventsArray it
  ∧ PubSub.allSubscribed (PubSub.next_value it) = true.
Proof.
  unfold PubSub.next_value, PubSub.pullValue. simpl.
  by destruct (PubSub.pushQueue it).
Qed.

Lemma perform_lookup c p h it :
  PubSub.iterators p !! h = Some it →
  PubSub.iterators (perform c p) !! h = Some (iterator_after c h it).
Proof.
  intros Hh. destruct c as [trigger payload|trigger|h']; simpl.
  - by rewrite list_lookup_fmap, Hh.
  - by apply lookup_app_l_Some.
  - destruct (decide (h' = h)) as [->|Hne].
    + by rewrite list_lookup_alter_eq, Hh.
    + by rewrite list_lookup_alter_ne.
Qed.

Lemma iterator_after_seen trigger c h it :
  coherent it → PubSub.eventsArray it = [trigger] →
  let it' := iterator_after c h it in
  coherent it'
  ∧ PubSub.eventsArray it' = [trigger]
  ∧ (PubSub.allSubscribed it = true → PubSub.allSubscribed it' = true)
  ∧ PubSub.seen it'
    = PubSub.seen it ++ (if PubSub.allSubscribed it then published trigger [c] else []).
Proof.
  intros Hc He. destruct c as [trigger' payload|trigger'|h']; simpl.
  - unfold PubSub.deliver, PubSub.listens. rewrite He.
    destruct (PubSub.allSubscribed it) eqn:Hs; simpl.
    + destruct (decide (trigger' = trigger)) as [->|Hne].
      * rewrite bool_decide_eq_true_2 by constructor.
        destruct (pushValue_seen payload it Hc) as [Hc' Hseen].
        destruct (pushValue_fields payload it) as [He' Hs'].
        by rewrite He', Hs', He, Hs.
      * rewrite bool_decide_eq_false_2.
        -- by rewrite app_nil_r.
        -- by intros ?%list_elem_of_singleton.
    + by rewrite app_nil_r.
  - split_and!; try done. destruct (PubSub.allSubscribed it); by rewrite app_nil_r.
  - assert (PubSub.seen it ++ (if PubSub.allSubscribed it then [] else [])
            = PubSub.seen it) as ->
      by (destruct (PubSub.allSubscribed it); by rewrite app_nil_r).
    case_decide; [|done].
    destruct (next_value_seen it Hc) as [Hc' Hseen].
    destruct (next_value_fields it) as [He' Hs'].
    by rewrite He', He.
Qed.

Lemma published_app trigger cs cs' :
  published trigger (cs ++ cs') = published trigger cs ++ published trigger cs'.
Proof. unfold published. apply omap_app. Qed.

(** Over a sequence of calls an iterator sees, after what it had seen, a
    trailing part of what the calls publish under its trigger: all of it if
    its listener was registered from the start. *)
Lemma performs_seen trigger cs : ∀ p h it,
  PubSub.iterators p !! h = Some it →
  coherent it → PubSub.eventsArray it = [trigger] →
  ∃ it' late,
    PubSub.iterators (performs cs p) !! h = Some it'
    ∧ coherent it' ∧ PubSub.eventsArray it' = [trigger]
    ∧ PubSub.seen it' = PubSub.seen it ++ late
    ∧ late `suffix_of` published trigger cs
    ∧ (PubSub.allSubscribed it = true → late = published trigger cs).
Proof.
  induction cs as [|c cs IH]; intros p h it Hh Hc He.
  - exists it, []. split_and!; try done. by rewrite app_nil_r.
  - pose proof (perform_lookup c p h it Hh) as Hh1.
    destruct (iterator_after_seen trigger c h it Hc He) as (Hc1 & He1 & Hs1 & Hseen1).
    destruct (IH _ _ _ Hh1 Hc1 He1) as (it' & late & Hh' & Hc' & He' & Hseen' & Hsuf & Hall).
    change (c :: cs) with ([c] ++ cs). rewrite published_app.
    destruct (PubSub.allSubscribed it) eqn:Hs.
    + exists it', (published trigger [c] ++ late).
      rewrite (Hall (Hs1 eq_refl)) in *. split_and!; try done.
      rewrite Hseen', Hseen1. by rewrite app_assoc.
    + exists it', late. rewrite app_nil_r in Hseen1. split_and!; try done.
      * by rewrite Hseen', Hseen1.
      * by apply suffix_app_r.
Qed.

(** *** The registry and the daemon as sequences of calls *)

Lemma omap_cons_eq {A B : Type} (f : A → option B) (x : A) (l : list A) :
  omap f (x :: l) = match f x with Some y => y :: omap f l | None => omap f l end.
Proof. done. Qed.

Lemma Registry_serve_pubsub q r :
  Registry.pubsub (Registry.serve q r).1
  = from_option (fun c => perform c (Registry.pubsub r)) (Registry.pubsub r)
      (Registry_call q).
Proof. by destruct q. Qed.

Lemma Registry_run_pubsub qs : ∀ r,
  Registry.pubsub (Registry.run qs r)
  = performs (omap Registry_call qs) (Registry.pubsub r).
Proof.
  induction qs as [|q qs IH]; intros r; [done |].
  unfold Registry.run in *. cbn [foldl]. rewrite IH, Registry_serve_pubsub.
  simpl. by destruct (Registry_call q).
Qed.

Lemma Registry_published qs :
  published "COMPONENT_UPDATE" (omap Registry_call qs)
  = componentUpdate <$> omap Registry.minted qs.
Proof.
  induction qs as [|q qs IH]; [done |].
  destruct q; simpl; first [exact IH | f_equal; exact IH].
Qed.

Lemma Daemon_handle_pubsub ev d :
  Daemon.pubsub (Daemon.handle ev d).1
  = from_option (fun c => perform c (Daemon.pubsub d)) (Daemon.pubsub d)
      (Daemon_call ev).
Proof.
  rewrite Daemon_handle_state.
  destruct ev as [| |m| | | | | |]; try done.
  unfold Daemon_call. by destruct (Daemon.forwarded (Daemon.ws_message m)).
Qed.

Lemma Daemon_run_pubsub evs : ∀ d,
  Daemon.pubsub (Daemon.run evs d).1
  = performs (omap Daemon_call evs) (Daemon.pubsub d).
Proof.
  induction evs as [|ev evs IH]; intros d; [done |].
  cbn [Daemon.run].
  pose proof (Daemon_handle_pubsub ev d) as Hp.
  destruct (Daemon.handle ev d) as [d1 e1]. specialize (IH d1).
  destruct (Daemon.run evs d1) as [d2 e2]. simpl in *. rewrite IH, Hp.
  by destruct (Daemon_call ev).
Qed.

Lemma Daemon_published evs :
  published "RENDERER_UPDATE" (omap Daemon_call evs)
  = rendererUpdate <$> omap Daemon.forwarded evs.
Proof.
  induction evs as [|ev evs IH]; [done |].
  rewrite !omap_cons_eq.
  destruct ev as [| |m| | | | | |]; try exact IH.
  change (Daemon_call (Daemon.ws_message m))
    with ((fun c => call_publish "RENDERER_UPDATE" (rendererUpdate c))
            <$> Daemon.forwarded (Daemon.ws_message m)).
  generalize (Daemon.forwarded (Daemon.ws_message m)). intros [c|]; [|exact IH].
  rewrite fmap_cons, <- IH. done.
Qed.

Lemma newIterator_lookup trigger p :
  PubSub.iterators (PubSub.asyncIterableIterator trigger p).1
    !! (PubSub.asyncIterableIterator trigger p).2
  = Some (PubSub.newIterator trigger).
Proof. simpl. by rewrite list_lookup_middle. Qed.

(** C6: a subscription starts empty and is not fed the history.  In the
    registry and in the daemon, whatever happened before ([qs], [evs]), the
    iterator that a subscribe creates has nothing queued and nothing
    delivered; and after whatever happens next ([qs'], [evs']) all that the
    iterator has delivered or queued is a trailing part of the components
    published since it was created, in the order of their publication. *)
Theorem subscription_starts_empty_no_replay :
  (∀ qs qs' : list Registry.Request,
     let r := Registry.run qs Registry.new in
     let '(r1, h) := Registry.subscribe_componentUpdate r in
     (∃ it, PubSub.iterators (Registry.pubsub r1) !! h = Some it
            ∧ PubSub.pushQueue it = [] ∧ PubSub.resolved it = [])
     ∧ ∃ it', PubSub.iterators (Registry.pubsub (Registry.run qs' r1)) !! h = Some it'
              ∧ PubSub.seen it'
                `suffix_of` (componentUpdate <$> omap Registry.minted qs'))
  ∧ (∀ evs evs' : list Daemon.Event,
       let d := (Daemon.run evs Daemon.new).1 in
       let '(d1, h) := Daemon.subscribe_rendererUpdate d in
       (∃ it, PubSub.iterators (Daemon.pubsub d1) !! h = Some it
              ∧ PubSub.pushQueue it = [] ∧ PubSub.resolved it = [])
       ∧ ∃ it', PubSub.iterators (Daemon.pubsub (Daemon.run evs' d1).1) !! h = Some it'
                ∧ PubSub.seen it'
                  `suffix_of` (rendererUpdate <$> omap Daemon.forwarded evs')).
Proof.
  split.
  - intros qs qs' r.
    pose proof (newIterator_lookup "COMPONENT_UPDATE" (Registry.pubsub r)) as Hnew.
    unfold Registry.subscribe_componentUpdate.
    destruct (PubSub.asyncIterableIterator "COMPONENT_UPDATE" (Registry.pubsub r))
      as [p h] eqn:Hp. simpl in Hnew. split.
    + by exists (PubSub.newIterator "COMPONENT_UPDATE").
    + rewrite Registry_run_pubsub. cbn [Registry.pubsub].
      destruct (performs_seen "COMPONENT_UPDATE" (omap Registry_call qs') p h _ Hnew)
        as (it' & late & Hh & _ & _ & Hseen & Hsuf & _); [by left | done |].
      exists it'. split; [done |].
      rewrite Hseen. simpl. by rewrite <- Registry_published.
  - intros evs evs' d.
    pose proof (newIterator_lookup "RENDERER_UPDATE" (Daemon.pubsub d)) as Hnew.
    unfold Daemon.subscribe_rendererUpdate.
    destruct (PubSub.asyncIterableIterator "RENDERER_UPDATE" (Daemon.pubsub d))
      as [p h] eqn:Hp. simpl in Hnew. split.
    + by exists (PubSub.newIterator "RENDERER_UPDATE").
    + rewrite Daemon_run_pubsub. cbn [Daemon.pubsub].
      destruct (performs_seen "RENDERER_UPDATE" (omap Daemon_call evs') p h _ Hnew)
        as (it' & late & Hh & _ & _ & Hseen & Hsuf & _); [by left | done |].
      exists it'. split; [done |].
      rewrite Hseen. simpl. by rewrite <- Daemon_published.
Qed.

(** ** Publishing *)

Lemma deliver_queue trigger payload it :
  let it' := PubSub.deliver trigger payload it in
  if PubSub.listens trigger it then
    match PubSub.pullQueue it with
    | 0 => PubSub.pushQueue it' = PubSub.pushQueue it ++ [payload]
           ∧ PubSub.resolved it' = PubSub.resolved it
    | S _ => PubSub.pushQueue it' = PubSub.pushQueue it
             ∧ PubSub.resolved it' = PubSub.resolved it ++ [payload]
    end
  else it' = it.
Proof.
  unfold PubSub.deliver. destruct (PubSub.listens trigger it); [|done].
  unfold PubSub.pushValue. by destruct (PubSub.pullQueue it).
Qed.

Lemma deliver_keeps_queue trigger payload it :
  PubSub.pushQueue it `prefix_of` PubSub.pushQueue (PubSub.deliver trigger payload it)
  ∧ PubSub.resolved it `prefix_of` PubSub.resolved (PubSub.deliver trigger payload it).
Proof.
  pose proof (deliver_queue trigger payload it) as H. simpl in H.
  destruct (PubSub.listens trigger it).
  - destruct (PubSub.pullQueue it); destruct H as [-> ->];
      split; first [done | by apply prefix_app_r].
  - by rewrite H.
Qed.

(** C1, as the code has it: publishing has no capacity bound and drops
    nothing.  A published payload reaches every iterator that listens to
    the trigger: it goes to a waiting request if there is one and to the end
    of the push queue otherwise, however long that queue is; what was queued
    or delivered before stays, in place.  [renderComponent] publishes the
    component it minted under COMPONENT_UPDATE and returns it: there is no
    failure to report to the publisher. *)
Theorem publish_enqueues_without_bound
    (trigger : string) (payload : Payload) (p : PubSub.t)
    (h : nat) (it : PubSub.AsyncIterator) :
  PubSub.iterators p !! h = Some it →
  (∃ it', PubSub.iterators (PubSub.publish trigger payload p) !! h = Some it'
          ∧ PubSub.pushQueue it `prefix_of` PubSub.pushQueue it'
          ∧ PubSub.resolved it `prefix_of` PubSub.resolved it'
          ∧ if PubSub.listens trigger it then
              match PubSub.pullQueue it with
              | 0 => PubSub.pushQueue it' = PubSub.pushQueue it ++ [payload]
                     ∧ PubSub.resolved it' = PubSub.resolved it
              | S _ => PubSub.pushQueue it' = PubSub.pushQueue it
                       ∧ PubSub.resolved it' = PubSub.resolved it ++ [payload]
              end
            else it' = it)
  ∧ (∀ uuid now type data r,
       let '(r', c) := Registry.renderComponent uuid now type data r in
       c = Component.mk uuid type data now
       ∧ Registry.pubsub r'
         = PubSub.publish "COMPONENT_UPDATE" (componentUpdate c)
             (Registry.pubsub r)).
Proof.
  intros Hh. split.
  - exists (PubSub.deliver trigger payload it). split.
    + simpl. by rewrite list_lookup_fmap, Hh.
    + destruct (deliver_keeps_queue trigger payload it) as [Hq Hr].
      split_and!; [done | done | apply deliver_queue].
  - done.
Qed.

(** A registry with a subscriber that reads one value and then lags behind
    two components. *)
Lemma publish_enqueues_without_bound_witness :
  let r := Registry.run
             [Registry.Subscription_componentUpdate; Registry.Iterator_next 0;
              backlog_render 0; backlog_render 1; backlog_render 2]
             Registry.new in
  let payload := componentUpdate card in
  ∃ it, PubSub.iterators (Registry.pubsub r) !! 0 = Some it
        ∧ ∃ it', PubSub.iterators
                   (PubSub.publish "COMPONENT_UPDATE" payload (Registry.pubsub r)) !! 0
                 = Some it'
                 ∧ PubSub.pushQueue it' = PubSub.pushQueue it ++ [payload]
                 ∧ length (PubSub.pushQueue it') = 3.
Proof.
  intros r payload. eexists. split; [vm_compute; reflexivity |].
  destruct (publish_enqueues_without_bound "COMPONENT_UPDATE" payload
              (Registry.pubsub r) 0 _ eq_refl) as [(it' & Hh' & _ & _ & Hq) _].
  exists it'. split; [exact Hh' |].
  simpl in Hq. destruct Hq as [Hq _]. split; [exact Hq |]. by rewrite Hq.
Defined.

(** C1, as stated, fails: the subscriber of [backlog] has 256 components
    queued, the bound the specification names; one more publish leaves the
    oldest at the head of the queue and makes it 257 long, where a
    drop-oldest queue of capacity 256 would have dropped the head. *)
Lemma full_queue_keeps_its_oldest :
  let r := Registry.run backlog Registry.new in
  let '(r', c) :=
    Registry.renderComponent (uuid_number 257) "2024-01-01T00:00:01.000Z"
      (Some (JStr "CARD")) None r in
  ∃ it it',
    PubSub.iterators (Registry.pubsub r) !! 0 = Some it
    ∧ PubSub.iterators (Registry.pubsub r') !! 0 = Some it'
    ∧ PubSub.listens "COMPONENT_UPDATE" it = true
    ∧ PubSub.pullQueue it = 0
    ∧ length (PubSub.pushQueue it) = 256
    ∧ PubSub.pushQueue it'
      ≠ (drop_oldest_enqueue 256 (PubSub.pushQueue it) (componentUpdate c)).1
    ∧ head (PubSub.pushQueue it') = head (PubSub.pushQueue it)
    ∧ length (PubSub.pushQueue it') = 257.
Proof.
  cbv zeta. unfold Registry.renderComponent.
  eexists _, _. split; [vm_compute; reflexivity |].
  split; [vm_compute; reflexivity |].
  split_and!; try (vm_compute; reflexivity).
  intros H. apply (f_equal length) in H. vm_compute in H. discriminate.
Qed.

(** ** The ingress *)

(** C8, as the code has it: POST /render validates nothing.  Every request
    is answered with status 200, [success: true] and the component minted
    for it, whose [type] and [data] are the body's, absent or not; the
    component is stored under its id and handed to every iterator that
    listens to COMPONENT_UPDATE; and the answer is the same whatever the
    registry holds and whoever subscribes: it does not depend on
    delivery. *)
Theorem post_render_accepts_every_request :
  ∀ (uuid now : string) (body : list (string * JSON))
    (r : Registry.ComponentRegistry),
    let '(r', reply) := Registry.post_render uuid now body r in
    let c := Component.mk uuid (member "type" body) (member "data" body) now in
    reply = Registry.render_reply 200 true c
    ∧ accepted reply = true
    ∧ JsMap.get uuid (Registry.components r') = Some c
    ∧ PubSub.iterators (Registry.pubsub r')
      = PubSub.deliver "COMPONENT_UPDATE" (componentUpdate c)
          <$> PubSub.iterators (Registry.pubsub r)
    ∧ ∀ r2, (Registry.post_render uuid now body r2).2 = reply.
Proof.
  intros uuid now body r. unfold Registry.post_render, Registry.renderComponent.
  cbn [Component.id Registry.components Registry.pubsub].
  split_and!; try reflexivity.
  rewrite JsMap_get_set. by rewrite decide_True.
Qed.

(** C8, as stated, fails: a request whose body has no [type] is accepted. *)
Lemma render_without_type_is_accepted : ¬ requires_type [].
Proof.
  intros H. specialize (H eq_refl (uuid_number 0) "2024-01-01T00:00:00.000Z" Registry.new).
  vm_compute in H. discriminate.
Qed.

(** ** Identity of components *)

Lemma rendered_ids (qs : list Registry.Request) :
  Component.id <$> omap Registry.rendered qs = omap Registry.uuid_of qs.
Proof.
  induction qs as [|q qs IH]; [done |].
  rewrite !omap_cons_eq. destruct q; simpl; first [exact IH | f_equal; exact IH].
Qed.

Lemma iterator_after_prefix c h it :
  coherent it →
  coherent (iterator_after c h it)
  ∧ PubSub.seen it `prefix_of` PubSub.seen (iterator_after c h it).
Proof.
  intros Hc. destruct c as [trigger payload|trigger|h']; simpl.
  - unfold PubSub.deliver. destruct (PubSub.listens trigger it); [|done].
    destruct (pushValue_seen payload it Hc) as [Hc' ->].
    split; [done | by apply prefix_app_r].
  - done.
  - case_decide; [|done].
    destruct (next_value_seen it Hc) as [Hc' ->]. done.
Qed.

Lemma perform_coherent c p :
  Forall coherent (PubSub.iterators p) →
  Forall coherent (PubSub.iterators (perform c p)).
Proof.
  intros Hall. destruct c as [trigger payload|trigger|h']; simpl.
  - rewrite Forall_fmap. eapply Forall_impl; [exact Hall |].
    intros it Hc. apply (iterator_after_prefix (call_publish trigger payload) 0 it Hc).
  - apply Forall_app. split; [done |]. constructor; [by left | constructor].
  - apply Forall_alter; [done |]. intros it _ Hc. by apply next_value_seen.
Qed.

Lemma performs_coherent cs : ∀ p,
  Forall coherent (PubSub.iterators p) →
  Forall coherent (PubSub.iterators (performs cs p)).
Proof.
  induction cs as [|c cs IH]; intros p Hall; [done |].
  simpl. apply IH. by apply perform_coherent.
Qed.

Lemma perform_seen_prefix oc p h it :
  Forall coherent (PubSub.iterators p) →
  PubSub.iterators p !! h = Some it →
  ∃ it', PubSub.iterators (from_option (fun c => perform c p) p oc) !! h = Some it'
         ∧ PubSub.seen it `prefix_of` PubSub.seen it'.
Proof.
  intros Hall Hh. destruct oc as [c|]; simpl; [|by exists it].
  exists (iterator_after c h it). split; [by apply perform_lookup |].
  apply iterator_after_prefix. by eapply Forall_lookup_1 in Hall.
Qed.

(** C7, as the code has it.  [renderComponent] mints its component with the
    id its call of [uuidv4()] returned and the time read during the call, so
    that the ids of rendered components are the UUIDs drawn, in order.  No
    operation changes a component after that.  In the registry and in the
    daemon the entry of a history is the component as it was stored, until
    one with the same id is stored in its place, and what an iterator has
    delivered or queued stays as it was, new payloads only follow.  The
    renderer's client hands the component of a data message to the callback
    as it came; its owner stores it as it came, and removing one component
    leaves the others as they were. *)
Theorem components_keep_their_identity :
  (∀ uuid now type data r,
     (Registry.renderComponent uuid now type data r).2
     = Component.mk uuid type data now)
  ∧ (∀ qs : list Registry.Request,
       Component.id <$> omap Registry.rendered qs = omap Registry.uuid_of qs)
  ∧ (∀ q r k,
       JsMap.get k (Registry.components (Registry.serve q r).1)
       = match Registry.rendered q with
         | Some c => if decide (Component.id c = k) then Some c
                     else JsMap.get k (Registry.components r)
         | None => JsMap.get k (Registry.components r)
         end)
  ∧ (∀ ev d k,
       JsMap.get k (Daemon.components (Daemon.handle ev d).1)
       = match Daemon.forwarded ev with
         | Some c => if decide (Component.id c = k) then Some c
                     else JsMap.get k (Daemon.components d)
         | None => JsMap.get k (Daemon.components d)
         end)
  ∧ (∀ qs q h it,
       let r := Registry.run qs Registry.new in
       PubSub.iterators (Registry.pubsub r) !! h = Some it →
       ∃ it', PubSub.iterators (Registry.pubsub (Registry.serve q r).1) !! h = Some it'
              ∧ PubSub.seen it `prefix_of` PubSub.seen it')
  ∧ (∀ evs ev h it,
       let d := (Daemon.run evs Daemon.new).1 in
       PubSub.iterators (Daemon.pubsub d) !! h = Some it →
       ∃ it', PubSub.iterators (Daemon.pubsub (Daemon.handle ev d).1) !! h = Some it'
              ∧ PubSub.seen it `prefix_of` PubSub.seen it')
  ∧ (∀ w sock message cb c,
       Message.type message = "data" →
       Message.id message
         ≫= (fun k => JsMap.get k (Renderer.subscriptions (Renderer.client w)))
       = Some cb →
       Message.payload_rendererUpdate message = Some c →
       Renderer.handle (Renderer.ws_message sock message) w
       = (w, [Renderer.call cb c]))
  ∧ (∀ c s k,
       JsMap.get k
         (DisplaySystem.components (DisplaySystem.handleComponentFromDaemon c s).1)
       = if decide (Component.id c = k) then Some c
         else JsMap.get k (DisplaySystem.components s))
  ∧ (∀ componentId s k,
       componentId ≠ k →
       JsMap.get k
         (DisplaySystem.components (DisplaySystem.removeComponent componentId s).1)
       = JsMap.get k (DisplaySystem.components s)).
Proof.
  split_and!.
  - done.
  - apply rendered_ids.
  - intros q r k. rewrite Registry_serve_components.
    destruct (Registry.rendered q); [apply JsMap_get_set | done].
  - intros ev d k. rewrite Daemon_handle_components.
    destruct (Daemon.forwarded ev); [apply JsMap_get_set | done].
  - intros qs q h it r Hh. rewrite Registry_serve_pubsub.
    apply perform_seen_prefix; [|done].
    unfold r. rewrite Registry_run_pubsub. apply performs_coherent. constructor.
  - intros evs ev h it d Hh. rewrite Daemon_handle_pubsub.
    apply perform_seen_prefix; [|done].
    unfold d. rewrite Daemon_run_pubsub. apply performs_coherent. constructor.
  - intros w sock message cb c Ht Hcb Hc. simpl. unfold Renderer.handleMessage.
    rewrite Ht, Hcb, Hc. done.
  - intros c s k. apply JsMap_get_set.
  - intros componentId s k Hne. by apply JsMap_get_delete_ne.
Qed.

(** The subscriber of the registry after two components: a third render
    leaves what it has seen in place.  The renderer behind the serving
    daemon likewise.  The renderer's client hands the card to its owner's
    callback; the owner removes the notification and keeps the card. *)
Lemma components_keep_their_identity_witness :
  let qs := [Registry.Subscription_componentUpdate; Registry.Iterator_next 0;
             backlog_render 0; backlog_render 1] in
  let evs := [Daemon.Subscription_rendererUpdate; Daemon.Iterator_next 0;
              Daemon.ws_message (data_message_of card)] in
  let rendered_card :=
    {| Message.type := "data"; Message.id := Some "renderer-subscription";
       Message.payload :=
         Some {| Message.errors := None;
                 Message.data :=
                   Some {| Message.componentUpdate := None;
                           Message.rendererUpdate := Some card |} |} |} in
  let s := (DisplaySystem.handleComponentFromDaemon notification
              (DisplaySystem.handleComponentFromDaemon card display_connected).1).1 in
  (∃ it, PubSub.iterators (Registry.pubsub (Registry.run qs Registry.new)) !! 0
         = Some it
         ∧ ∃ it', PubSub.iterators
                    (Registry.pubsub
                       (Registry.serve (backlog_render 2)
                          (Registry.run qs Registry.new)).1) !! 0
                  = Some it'
                  ∧ PubSub.seen it `prefix_of` PubSub.seen it')
  ∧ (∃ it, PubSub.iterators (Daemon.pubsub (Daemon.run evs Daemon.new).1) !! 0
           = Some it
           ∧ ∃ it', PubSub.iterators
                      (Daemon.pubsub
                         (Daemon.handle
                            (Daemon.ws_message (data_message_of notification))
                            (Daemon.run evs Daemon.new).1).1) !! 0
                    = Some it'
                    ∧ PubSub.seen it `prefix_of` PubSub.seen it')
  ∧ Renderer.handle (Renderer.ws_message 0 rendered_card) renderer_subscribed
    = (renderer_subscribed, [Renderer.call DisplaySystem.handler card])
  ∧ (Component.id notification ≠ Component.id card
     ∧ JsMap.get (Component.id card)
         (DisplaySystem.components
            (DisplaySystem.removeComponent (Component.id notification) s).1)
       = Some card).
Proof.
  intros qs evs rendered_card s.
  destruct components_keep_their_identity
    as (_ & _ & _ & _ & Hr & Hd & Hcb & _ & Hrm).
  split_and!.
  - eexists. split; [vm_compute; reflexivity |].
    exact (Hr qs (backlog_render 2) 0 _ eq_refl).
  - eexists. split; [vm_compute; reflexivity |].
    exact (Hd evs (Daemon.ws_message (data_message_of notification)) 0 _ eq_refl).
  - exact (Hcb renderer_subscribed 0 rendered_card DisplaySystem.handler card
             eq_refl eq_refl eq_refl).
  - done.
  - rewrite (Hrm (Component.id notification) s (Component.id card)); done.
Defined.

(** C7, as stated, fails: the debug endpoint mints components too, with the
    id "test-" followed by the clock in milliseconds, and two requests within
    one millisecond mint the same id, although no UUID was repeated. *)
Lemma debug_endpoint_repeats_an_id :
  ¬ minted_ids_unique two_debug_requests
  ∧ Component.id <$> omap Registry.minted two_debug_requests
    = ["test-1700000000000"; "test-1700000000000"]
  ∧ is_uuid_v4 "test-1700000000000" = false.
Proof.
  split; [|by split].
  intros H. specialize (H (NoDup_nil_2)). vm_compute in H.
  apply NoDup_cons in H as [Hnotin _]. apply Hnotin. left.
Qed.

(** ** The daemon as a relay *)

(** What [onmessage] does with a data message that carries a component:
    it tests [message.payload?.errors] first, and forwards the component
    only when there are none. *)
Lemma onmessage_data (message : Message.t) (d : Daemon.ComponentDaemon)
    (c : Component.t) :
  Message.type message = "data" →
  Message.payload_componentUpdate message = Some c →
  if truthy (Message.payload_errors message) then
    Daemon.onmessage message d
    = (d, [Daemon.console_error "GraphQL subscription errors"])
  else
    Daemon.onmessage message d = (Daemon.handleComponentFromRegistry c d, [])
    ∧ Daemon.pubsub (Daemon.onmessage message d).1
      = PubSub.publish "RENDERER_UPDATE" (rendererUpdate c) (Daemon.pubsub d)
    ∧ payload_component (rendererUpdate c) = c
    ∧ JsMap.get (Component.id c) (Daemon.components (Daemon.onmessage message d).1)
      = Some c
    ∧ PubSub.iterators (Daemon.pubsub (Daemon.onmessage message d).1)
      = PubSub.deliver "RENDERER_UPDATE" (rendererUpdate c)
          <$> PubSub.iterators (Daemon.pubsub d).
Proof.
  intros Ht Hc. unfold Daemon.onmessage. rewrite Ht, Hc. simpl.
  destruct (truthy (Message.payload_errors message)); [done |].
  split_and!; try done.
  simpl. rewrite JsMap_get_set. by rewrite decide_True.
Qed.

(** C2: the daemon forwards every component it receives from the registry,
    at once and as it is.  For every data message the registry can send
    that carries a component, [onmessage] does nothing but
    [handleComponentFromRegistry]: it stores the component under its id and
    publishes the same component -- same id, type, data and createdAt --
    under RENDERER_UPDATE, the one topic of the daemon, so that every
    iterator listening there receives it.  The only test on the way, that
    of [message.payload?.errors], never holds for such a message. *)
Theorem daemon_relays_component_unchanged
    (message : Message.t) (d : Daemon.ComponentDaemon) (c : Component.t) :
  from_registry message →
  Message.type message = "data" →
  Message.payload_componentUpdate message = Some c →
  Daemon.onmessage message d = (Daemon.handleComponentFromRegistry c d, [])
  ∧ Daemon.pubsub (Daemon.onmessage message d).1
    = PubSub.publish "RENDERER_UPDATE" (rendererUpdate c) (Daemon.pubsub d)
  ∧ payload_component (rendererUpdate c) = c
  ∧ JsMap.get (Component.id c) (Daemon.components (Daemon.onmessage message d).1)
    = Some c
  ∧ PubSub.iterators (Daemon.pubsub (Daemon.onmessage message d).1)
    = PubSub.deliver "RENDERER_UPDATE" (rendererUpdate c)
        <$> PubSub.iterators (Daemon.pubsub d).
Proof.
  intros Hreg Ht Hc. pose proof (onmessage_data message d c Ht Hc) as H.
  unfold from_registry in Hreg.
  destruct (truthy (Message.payload_errors message)); [|exact H].
  rewrite Hreg in Hc by done. discriminate.
Qed.

(** The card, as the registry sends it to the daemon that serves one
    renderer. *)
Lemma daemon_relays_component_unchanged_witness :
  from_registry data_message
  ∧ Message.type data_message = "data"
  ∧ Message.payload_componentUpdate data_message = Some card
  ∧ Daemon.onmessage data_message daemon_serving
    = (Daemon.handleComponentFromRegistry card daemon_serving, []).
Proof.
  assert (Hreg : from_registry data_message) by (intros H; discriminate H).
  split; [exact Hreg |]. split; [reflexivity |]. split; [reflexivity |].
  exact (proj1 (daemon_relays_component_unchanged data_message daemon_serving card
                  Hreg eq_refl eq_refl)).
Defined.

(** The test on [errors] at work: a data message that carries a component
    next to a list of errors -- which the schema of the registry rules
    out -- is logged and dropped. *)
Lemma data_message_with_errors_is_dropped :
  ¬ from_registry data_message_with_errors
  ∧ ¬ relays_every_component data_message_with_errors daemon_serving.
Proof.
  split.
  - intros H. specialize (H eq_refl). discriminate H.
  - intros H. specialize (H card eq_refl eq_refl).
    apply (f_equal (fun d => length (Daemon.getComponents d))) in H.
    vm_compute in H. discriminate.
Qed.

(** ** The renderer's client *)

Lemma Renderer_run_snoc evs ev w :
  Renderer.run (evs ++ [ev]) w
  = let '(w1, e1) := Renderer.run evs w in
    let '(w2, e2) := Renderer.handle ev w1 in (w2, e1 ++ e2).
Proof.
  revert w. induction evs as [|ev' evs IH]; intros w; simpl.
  - destruct (Renderer.handle ev w) as [w2 e2]. by rewrite app_nil_r.
  - destruct (Renderer.handle ev' w) as [w1 e1]. rewrite IH.
    destruct (Renderer.run evs w1) as [w2 e2].
    destruct (Renderer.handle ev w2) as [w3 e3]. by rewrite app_assoc.
Qed.

(** [send] transmits on the socket of the client, if that is open, and
    changes nothing. *)
Lemma send_spec message w :
  Renderer.send message w
  = (w, if Renderer.ws_is_open w
        then match Renderer.ws (Renderer.client w) with
             | Some sock => [Renderer.ws_send sock message]
             | None => []
             end
        else []).
Proof.
  unfold Renderer.send, Renderer.ws_is_open.
  destruct (Renderer.ws (Renderer.client w)) as [sock|]; [|done].
  by destruct (bool_decide (Renderer.sockets w !! sock = Some Renderer.OPEN)).
Qed.

Lemma send_closed message w :
  Renderer.ws_is_open w = false → Renderer.send message w = (w, []).
Proof. intros H. by rewrite send_spec, H. Qed.

Lemma send_open message w sock :
  Renderer.ws (Renderer.client w) = Some sock →
  Renderer.sockets w !! sock = Some Renderer.OPEN →
  Renderer.send message w = (w, [Renderer.ws_send sock message]).
Proof.
  intros Hws Hopen. unfold Renderer.send. rewrite Hws.
  by rewrite bool_decide_eq_true_2.
Qed.

Lemma sent_send message w :
  Renderer.sent (Renderer.send message w).2
  = if Renderer.ws_is_open w then [message] else [].
Proof.
  rewrite send_spec. unfold Renderer.ws_is_open. simpl.
  destruct (Renderer.ws (Renderer.client w)) as [sock|]; [|done].
  by destruct (bool_decide _).
Qed.

(** What an event can make the client send: nothing, or the one message
    that belongs to the event. *)
Lemma handle_sent_eq ev w :
  Renderer.sent (Renderer.handle ev w).2 = []
  ∨ (Renderer.sent (Renderer.handle ev w).2 = [connection_init]
     ∧ Renderer_open ev = true)
  ∨ (Renderer.sent (Renderer.handle ev w).2
     = [start "renderer-subscription" Renderer.renderer_query]
     ∧ Renderer_ack ev = true)
  ∨ (Renderer.sent (Renderer.handle ev w).2 = [stop "renderer-subscription"]
     ∧ ev = Renderer.unsubscribe_called).
Proof.
  destruct ev as [made| |cb| |sock|sock msg|sock|sock|made]; simpl.
  - destruct made; by left.
  - unfold Renderer.disconnect.
    destruct (Renderer.ws (Renderer.client w)); by left.
  - by left.
  - unfold Renderer.unsubscribe.
    destruct (Renderer.connected (Renderer.client w)); [|by left].
    rewrite sent_send. case_match; [|by left]. by right; right; right.
  - unfold Renderer.onopen.
    match goal with |- context [Renderer.send ?msg ?w1] =>
      pose proof (sent_send msg w1) as Hs; destruct (Renderer.send msg w1) as [w2 e2]
    end.
    simpl in *. unfold Renderer.sent in *. rewrite omap_app, Hs. simpl.
    rewrite app_nil_r. case_match; [|by left]. by right; left.
  - unfold Renderer.handleMessage, is_ack.
    destruct (decide (Message.type msg = "connection_ack")) as [Hack|Hn].
    + unfold Renderer.startSubscription. rewrite sent_send.
      case_match; [|by left]. right; right; left.
      by rewrite bool_decide_eq_true_2.
    + repeat case_match; by left.
  - unfold Renderer.onclose, Renderer.attemptReconnect.
    case_decide; by left.
  - by left.
  - destruct made; by left.
Qed.

Lemma handle_sent_cases ev w m :
  m ∈ Renderer.sent (Renderer.handle ev w).2 →
  (m = connection_init ∧ Renderer_open ev = true)
  ∨ (m = start "renderer-subscription" Renderer.renderer_query
     ∧ Renderer_ack ev = true)
  ∨ (m = stop "renderer-subscription" ∧ ev = Renderer.unsubscribe_called).
Proof.
  destruct (handle_sent_eq ev w) as [->|[[-> ?]|[[-> ?]|[-> ?]]]].
  - by intros ?%elem_of_nil.
  - intros ->%list_elem_of_singleton. by left.
  - intros ->%list_elem_of_singleton. by right; left.
  - intros ->%list_elem_of_singleton. by right; right.
Qed.

(** C10: [send] on a socket that is not open (or with no socket) transmits
    nothing, raises nothing and keeps nothing for later: the world is the
    same after it as before.  So the stop of an unsubscribe that runs while
    the client is not connected, or while its socket is not open, is lost:
    the subscription is removed, nothing is transmitted, and nothing else
    ever sends a stop in its place. *)
Theorem send_while_not_open_is_dropped :
  (∀ (w : Renderer.World) (message : ClientMessage),
     Renderer.ws_is_open w = false → Renderer.send message w = (w, []))
  ∧ (∀ w : Renderer.World,
       Renderer.connected (Renderer.client w) = false
       ∨ Renderer.ws_is_open w = false →
       let '(w', es) := Renderer.unsubscribe w in
       es = []
       ∧ Renderer.sockets w' = Renderer.sockets w
       ∧ Renderer.subscriptions (Renderer.client w')
         = JsMap.delete "renderer-subscription"
             (Renderer.subscriptions (Renderer.client w))
       ∧ Renderer.ws (Renderer.client w') = Renderer.ws (Renderer.client w)
       ∧ Renderer.connected (Renderer.client w')
         = Renderer.connected (Renderer.client w))
  ∧ (∀ (ev : Renderer.Event) (w : Renderer.World) (m : ClientMessage),
       m ∈ Renderer.sent (Renderer.handle ev w).2 → is_stop m = true →
       ev = Renderer.unsubscribe_called).
Proof.
  split_and!.
  - intros w message. apply send_closed.
  - intros w Hoff. unfold Renderer.unsubscribe.
    destruct (Renderer.connected (Renderer.client w)) eqn:Hc; [|done].
    destruct Hoff as [?|Hoff]; [done |].
    rewrite send_closed; [done |]. exact Hoff.
  - intros ev w m Hin Hstop.
    destruct (handle_sent_cases ev w m Hin) as [[-> _]|[[-> _]|[_ ->]]]; done.
Qed.

(** The client before it has any socket: a stop sent or an unsubscribe run
    then transmits nothing.  The subscribed client: the stop it transmits
    comes from the unsubscribe. *)
Lemma send_while_not_open_is_dropped_witness :
  let w0 := Renderer.boot renderer_url in
  (Renderer.ws_is_open w0 = false
   ∧ Renderer.send (stop "renderer-subscription") w0 = (w0, []))
  ∧ (Renderer.connected (Renderer.client w0) = false
     ∧ (Renderer.unsubscribe w0).2 = [])
  ∧ (stop "renderer-subscription"
       ∈ Renderer.sent (Renderer.handle Renderer.unsubscribe_called renderer_subscribed).2
     ∧ is_stop (stop "renderer-subscription") = true
     ∧ Renderer.unsubscribe_called = Renderer.unsubscribe_called).
Proof.
  intros w0.
  destruct send_while_not_open_is_dropped as (Hsend & Hunsub & Hstop).
  assert (Hin : stop "renderer-subscription"
                ∈ Renderer.sent
                    (Renderer.handle Renderer.unsubscribe_called renderer_subscribed).2)
    by (vm_compute; constructor).
  split_and!.
  - reflexivity.
  - exact (Hsend w0 (stop "renderer-subscription") eq_refl).
  - reflexivity.
  - exact (proj1 (Hunsub w0 (or_introl eq_refl))).
  - exact Hin.
  - reflexivity.
  - exact (Hstop Renderer.unsubscribe_called renderer_subscribed
             (stop "renderer-subscription") Hin eq_refl).
Defined.

(** ** The handshake *)

Lemma Renderer_sent_app es es' :
  Renderer.sent (es ++ es') = Renderer.sent es ++ Renderer.sent es'.
Proof. apply omap_app. Qed.

Lemma Daemon_sent_app es es' :
  Daemon.sent (es ++ es') = Daemon.sent es ++ Daemon.sent es'.
Proof. apply omap_app. Qed.

Lemma send_transmits msg w sock m :
  Renderer.ws_send sock m ∈ (Renderer.send msg w).2 →
  Renderer.ws (Renderer.client (Renderer.send msg w).1) = Some sock
  ∧ Renderer.sockets (Renderer.send msg w).1 !! sock = Some Renderer.OPEN.
Proof.
  unfold Renderer.send.
  destruct (Renderer.ws (Renderer.client w)) as [s|] eqn:Hws;
    [|by intros ?%elem_of_nil].
  destruct (bool_decide (Renderer.sockets w !! s = Some Renderer.OPEN)) eqn:Hb;
    [|by intros ?%elem_of_nil].
  intros Hin%list_elem_of_singleton. injection Hin as <- <-. simpl.
  by apply bool_decide_eq_true_1 in Hb.
Qed.

(** Whatever the client transmits goes to its current socket, and that
    socket is open. *)
Lemma handle_transmits_on_open_socket ev w sock m :
  Renderer.ws_send sock m ∈ (Renderer.handle ev w).2 →
  Renderer.ws (Renderer.client (Renderer.handle ev w).1) = Some sock
  ∧ Renderer.sockets (Renderer.handle ev w).1 !! sock = Some Renderer.OPEN.
Proof.
  destruct ev as [made| |cb| |s|s msg|s|s|made]; simpl.
  - destruct made; simpl; [by intros ?%list_elem_of_singleton |].
    intros [?|Hin]%elem_of_cons; [done |]. by apply list_elem_of_singleton in Hin.
  - unfold Renderer.disconnect.
    destruct (Renderer.ws (Renderer.client w)); simpl;
      [by intros ?%list_elem_of_singleton | by intros ?%elem_of_nil].
  - by intros ?%elem_of_nil.
  - unfold Renderer.unsubscribe.
    destruct (Renderer.connected (Renderer.client w)); [|by intros ?%elem_of_nil].
    apply send_transmits.
  - unfold Renderer.onopen.
    match goal with |- context [Renderer.send ?msg ?w1] =>
      pose proof (send_transmits msg w1 sock m) as Hs;
      destruct (Renderer.send msg w1) as [w2 e2]
    end.
    simpl in *. intros [Hin|Hin]%elem_of_app; [by apply Hs |].
    by apply list_elem_of_singleton in Hin.
  - unfold Renderer.handleMessage.
    destruct (decide (Message.type msg = "connection_ack")).
    + apply send_transmits.
    + repeat case_match; simpl; by intros ?%list_elem_of_singleton.
  - unfold Renderer.onclose, Renderer.attemptReconnect.
    case_decide; simpl.
    + intros [?|Hin]%elem_of_cons; [done |].
      by apply list_elem_of_singleton in Hin.
    + by intros ?%list_elem_of_singleton.
  - by intros ?%list_elem_of_singleton.
  - destruct made; simpl; [by intros ?%list_elem_of_singleton |].
    intros [?|Hin]%elem_of_cons; [done |]. by apply list_elem_of_singleton in Hin.
Qed.

Lemma Daemon_handle_sent ev d :
  Daemon.sent (Daemon.handle ev d).2
  = match ev with
    | Daemon.ws_open => [connection_init]
    | Daemon.ws_message message =>
        if is_ack message then [start "registry-sub" Daemon.registry_query] else []
    | _ => []
    end.
Proof.
  destruct ev as [| |m| | | | | |]; try done.
  simpl. unfold Daemon.onmessage, is_ack.
  destruct (decide (Message.type m = "connection_ack")) as [Hack|Hn].
  - rewrite bool_decide_eq_true_2 by done. rewrite Hack. done.
  - rewrite bool_decide_eq_false_2 by done.
    destruct (decide (Message.type m = "data")).
    + destruct (truthy (Message.payload_errors m)).
      * simpl. by destruct (decide (Message.type m = "error")).
      * destruct (Message.payload_componentUpdate m);
          simpl; by destruct (decide (Message.type m = "error")).
    + simpl. by destruct (decide (Message.type m = "error")).
Qed.

Lemma Renderer_starts_inits evs : ∀ w,
  length (List.filter is_start (Renderer.sent (Renderer.run evs w).2))
  ≤ length (List.filter Renderer_ack evs)
  ∧ length (List.filter is_init (Renderer.sent (Renderer.run evs w).2))
    ≤ length (List.filter Renderer_open evs).
Proof.
  induction evs as [|ev evs IH]; intros w; [simpl; lia |].
  cbn [Renderer.run]. pose proof (handle_sent_eq ev w) as Hev.
  destruct (Renderer.handle ev w) as [w1 e1]. specialize (IH w1).
  destruct (Renderer.run evs w1) as [w2 e2]. simpl in *.
  rewrite Renderer_sent_app, !List.filter_app, !length_app.
  destruct (Renderer_ack ev) eqn:Ha, (Renderer_open ev) eqn:Ho;
    destruct Hev as [Hs|[[Hs ?]|[[Hs ?]|[Hs ->]]]]; rewrite Hs;
    simpl; try discriminate; lia.
Qed.

Lemma Daemon_starts_inits evs : ∀ d,
  length (List.filter is_start (Daemon.sent (Daemon.run evs d).2))
  = length (List.filter Daemon_ack evs)
  ∧ length (List.filter is_init (Daemon.sent (Daemon.run evs d).2))
    = length (List.filter Daemon_open evs).
Proof.
  induction evs as [|ev evs IH]; intros d; [done |].
  cbn [Daemon.run]. pose proof (Daemon_handle_sent ev d) as Hev.
  destruct (Daemon.handle ev d) as [d1 e1]. specialize (IH d1).
  destruct (Daemon.run evs d1) as [d2 e2]. simpl in *.
  rewrite Daemon_sent_app, !List.filter_app, !length_app, Hev.
  destruct ev as [| |m| | | | | |]; simpl; try lia.
  destruct (is_ack m); simpl; lia.
Qed.

(** C5: the order of the handshake, for the renderer's client and for the
    daemon's.  A client transmits only on a socket that is open.  It sends
    [connection_init] only while it handles the opening of a socket, and it
    does send it then.  It sends [start] only while it handles a
    [connection_ack], and it does send it then, as the only effect.  Hence,
    at any point of any execution, no more starts have been sent than
    acknowledgments received, and no more inits than sockets opened. *)
Theorem handshake_order :
  (* the renderer's client *)
  (∀ ev w sock m,
     Renderer.ws_send sock m ∈ (Renderer.handle ev w).2 →
     Renderer.ws (Renderer.client (Renderer.handle ev w).1) = Some sock
     ∧ Renderer.sockets (Renderer.handle ev w).1 !! sock = Some Renderer.OPEN)
  ∧ (∀ ev w m,
       m ∈ Renderer.sent (Renderer.handle ev w).2 →
       (is_init m = true → Renderer_open ev = true)
       ∧ (is_start m = true → Renderer_ack ev = true))
  ∧ (∀ w sock,
       Renderer.ws (Renderer.client w) = Some sock →
       sock < length (Renderer.sockets w) →
       (Renderer.handle (Renderer.ws_open sock) w).2
       = [Renderer.ws_send sock connection_init; Renderer.resolve sock])
  ∧ (∀ w sock message,
       is_ack message = true →
       Renderer.ws (Renderer.client w) = Some sock →
       Renderer.sockets w !! sock = Some Renderer.OPEN →
       Renderer.handle (Renderer.ws_message sock message) w
       = (w, [Renderer.ws_send sock
                (start "renderer-subscription" Renderer.renderer_query)]))
  ∧ (∀ evs w,
       length (List.filter is_start (Renderer.sent (Renderer.run evs w).2))
       ≤ length (List.filter Renderer_ack evs)
       ∧ length (List.filter is_init (Renderer.sent (Renderer.run evs w).2))
         ≤ length (List.filter Renderer_open evs))
  (* the daemon's client *)
  ∧ (∀ ev d m,
       m ∈ Daemon.sent (Daemon.handle ev d).2 →
       (is_init m = true → Daemon_open ev = true)
       ∧ (is_start m = true → Daemon_ack ev = true))
  ∧ (∀ d, Daemon.handle Daemon.ws_open d = (d, [Daemon.ws_send connection_init]))
  ∧ (∀ d message,
       is_ack message = true →
       Daemon.handle (Daemon.ws_message message) d
       = (d, [Daemon.ws_send (start "registry-sub" Daemon.registry_query)]))
  ∧ (∀ evs d,
       length (List.filter is_start (Daemon.sent (Daemon.run evs d).2))
       = length (List.filter Daemon_ack evs)
       ∧ length (List.filter is_init (Daemon.sent (Daemon.run evs d).2))
         = length (List.filter Daemon_open evs)).
Proof.
  split_and!.
  - apply handle_transmits_on_open_socket.
  - intros ev w m Hin.
    destruct (handle_sent_cases ev w m Hin) as [[-> ?]|[[-> ?]|[-> ?]]]; done.
  - intros w sock Hws Hlt. simpl. unfold Renderer.onopen.
    rewrite (send_open _ _ sock); [done | done |]. simpl.
    by apply list_lookup_insert_eq.
  - intros w sock message Hack Hws Hopen. simpl. unfold Renderer.handleMessage.
    apply bool_decide_eq_true_1 in Hack. rewrite decide_True by done.
    by apply send_open.
  - intros evs w. apply Renderer_starts_inits.
  - intros ev d m. rewrite Daemon_handle_sent.
    destruct ev as [| |msg| | | | | |]; try by intros ?%elem_of_nil.
    + intros ->%list_elem_of_singleton. done.
    + simpl. destruct (is_ack msg); [|by intros ?%elem_of_nil].
      intros ->%list_elem_of_singleton. done.
  - done.
  - intros d message Hack. simpl. unfold Daemon.onmessage.
    apply bool_decide_eq_true_1 in Hack. rewrite Hack. done.
  - intros evs d. apply Daemon_starts_inits.
Qed.

(** The renderer's client on its first socket: the socket opens and the
    init goes out, on that socket; the acknowledgment arrives and the start
    goes out.  The daemon's client likewise. *)
Lemma handshake_order_witness :
  let w0 := (Renderer.run [Renderer.connect_called Renderer.constructed]
               (Renderer.boot renderer_url)).1 in
  let w1 := (Renderer.handle (Renderer.ws_open 0) w0).1 in
  (Renderer.ws_send 0 connection_init ∈ (Renderer.handle (Renderer.ws_open 0) w0).2
   ∧ Renderer.ws (Renderer.client w1) = Some 0
   ∧ Renderer.sockets w1 !! 0 = Some Renderer.OPEN)
  ∧ (connection_init ∈ Renderer.sent (Renderer.handle (Renderer.ws_open 0) w0).2
     ∧ Renderer_open (Renderer.ws_open 0) = true)
  ∧ (Renderer.ws (Renderer.client w0) = Some 0 ∧ 0 < length (Renderer.sockets w0)
     ∧ (Renderer.handle (Renderer.ws_open 0) w0).2
       = [Renderer.ws_send 0 connection_init; Renderer.resolve 0])
  ∧ (is_ack connection_ack = true
     ∧ Renderer.handle (Renderer.ws_message 0 connection_ack) w1
       = (w1, [Renderer.ws_send 0
                 (start "renderer-subscription" Renderer.renderer_query)]))
  ∧ (start "registry-sub" Daemon.registry_query
       ∈ Daemon.sent (Daemon.handle (Daemon.ws_message connection_ack) Daemon.new).2
     ∧ Daemon_ack (Daemon.ws_message connection_ack) = true)
  ∧ Daemon.handle (Daemon.ws_message connection_ack) Daemon.new
    = (Daemon.new, [Daemon.ws_send (start "registry-sub" Daemon.registry_query)]).
Proof.
  intros w0 w1.
  destruct handshake_order
    as (Hsock & Hsent & Hopen & Hack & _ & Hdsent & _ & Hdack & _).
  assert (Hin : Renderer.ws_send 0 connection_init
                ∈ (Renderer.handle (Renderer.ws_open 0) w0).2)
    by (vm_compute; constructor).
  assert (Hin' : connection_init
                 ∈ Renderer.sent (Renderer.handle (Renderer.ws_open 0) w0).2)
    by (vm_compute; constructor).
  assert (Hdin : start "registry-sub" Daemon.registry_query
                 ∈ Daemon.sent
                     (Daemon.handle (Daemon.ws_message connection_ack) Daemon.new).2)
    by (vm_compute; constructor).
  split_and!.
  - exact Hin.
  - exact (proj1 (Hsock (Renderer.ws_open 0) w0 0 connection_init Hin)).
  - exact (proj2 (Hsock (Renderer.ws_open 0) w0 0 connection_init Hin)).
  - exact Hin'.
  - exact (proj1 (Hsent (Renderer.ws_open 0) w0 connection_init Hin') eq_refl).
  - reflexivity.
  - vm_compute; lia.
  - apply (Hopen w0 0); [reflexivity | vm_compute; lia].
  - reflexivity.
  - apply (Hack w1 0 connection_ack); reflexivity.
  - exact Hdin.
  - exact (proj2 (Hdsent (Daemon.ws_message connection_ack) Daemon.new _ Hdin) eq_refl).
  - exact (Hdack Daemon.new connection_ack eq_refl).
Defined.

(** ** Reconnection *)

Lemma Renderer_scheduled_app es es' :
  Renderer.scheduled (es ++ es') = Renderer.scheduled es ++ Renderer.scheduled es'.
Proof. apply omap_app. Qed.

Lemma onclose_effects sock w :
  (Renderer.handle (Renderer.ws_closed sock) w).2
  = if decide (Renderer.reconnectAttempts (Renderer.client w)
               < Renderer.maxReconnectAttempts (Renderer.client w))
    then [Renderer.console_log "Reconnecting";
          Renderer.setTimeout_connect
            (2000 * Z.of_nat (S (Renderer.reconnectAttempts (Renderer.client w))))]
    else [Renderer.console_log "Max reconnection attempts reached"].
Proof.
  simpl. unfold Renderer.onclose, Renderer.attemptReconnect. simpl.
  by case_decide.
Qed.

(** The counters of the client after an event. *)
Lemma handle_counters ev w :
  let c := Renderer.client w in
  let c' := Renderer.client (Renderer.handle ev w).1 in
  Renderer.maxReconnectAttempts c' = Renderer.maxReconnectAttempts c
  ∧ Renderer.reconnectAttempts c'
    = match ev with
      | Renderer.ws_open _ => 0
      | Renderer.ws_closed _ =>
          if decide (Renderer.reconnectAttempts c < Renderer.maxReconnectAttempts c)
          then S (Renderer.reconnectAttempts c) else Renderer.reconnectAttempts c
      | _ => Renderer.reconnectAttempts c
      end.
Proof.
  destruct ev as [made| |cb| |s|s msg|s|s|made]; simpl; try done;
    try (by destruct made).
  - unfold Renderer.disconnect. by destruct (Renderer.ws (Renderer.client w)).
  - unfold Renderer.unsubscribe.
    destruct (Renderer.connected (Renderer.client w)); [|done].
    by rewrite send_spec.
  - unfold Renderer.onopen. by rewrite send_spec.
  - unfold Renderer.handleMessage, Renderer.startSubscription.
    rewrite send_spec. by repeat case_match.
  - unfold Renderer.onclose, Renderer.attemptReconnect. simpl. by case_decide.
Qed.

Lemma handle_scheduled ev w :
  Renderer.scheduled (Renderer.handle ev w).2
  = match ev with
    | Renderer.ws_closed _ =>
        if decide (Renderer.reconnectAttempts (Renderer.client w)
                   < Renderer.maxReconnectAttempts (Renderer.client w))
        then [(2000 * Z.of_nat (S (Renderer.reconnectAttempts (Renderer.client w))))%Z]
        else []
    | _ => []
    end.
Proof.
  destruct ev as [made| |cb| |s|s msg|s|s|made]; try done;
    try (by destruct made).
  - simpl. unfold Renderer.disconnect. by destruct (Renderer.ws (Renderer.client w)).
  - simpl. unfold Renderer.unsubscribe.
    destruct (Renderer.connected (Renderer.client w)); [|done].
    rewrite send_spec. simpl. by repeat case_match.
  - simpl. unfold Renderer.onopen. rewrite send_spec. simpl. by repeat case_match.
  - simpl. unfold Renderer.handleMessage, Renderer.startSubscription.
    rewrite send_spec. simpl. by repeat case_match.
  - rewrite onclose_effects. by case_decide.
Qed.

Lemma Renderer_run_max url evs :
  Renderer.maxReconnectAttempts (Renderer.client (Renderer.run evs (Renderer.boot url)).1) = 5.
Proof.
  induction evs as [|ev evs IH] using rev_ind; [done |].
  rewrite Renderer_run_snoc.
  destruct (Renderer.run evs (Renderer.boot url)) as [w1 e1].
  pose proof (handle_counters ev w1) as [Hmax _].
  destruct (Renderer.handle ev w1) as [w2 e2]. simpl in *. congruence.
Qed.

(** From [a] attempts made, the closes of a run without opening schedule the
    rest of the policy, one delay each, and nothing beyond the fifth. *)
Lemma backoff_from evs : ∀ a w,
  Renderer.maxReconnectAttempts (Renderer.client w) = 5 →
  Renderer.reconnectAttempts (Renderer.client w) = a → a ≤ 5 →
  Forall (fun ev => Renderer_open ev = false) evs →
  Renderer.scheduled (Renderer.run evs w).2
  = take (Renderer_closes evs)
      ((fun n => 2000 * Z.of_nat n)%Z <$> seq (S a) (5 - a)).
Proof.
  induction evs as [|ev evs IH]; intros a w Hmax Ha Hle Hno; [done |].
  apply Forall_cons in Hno as [Hev Hno]. cbn [Renderer.run].
  pose proof (handle_counters ev w) as [Hmax' Ha'].
  pose proof (handle_scheduled ev w) as Hs.
  destruct (Renderer.handle ev w) as [w1 e1]. simpl in Hmax', Ha', Hs.
  rewrite Hmax in *. rewrite Ha in *.
  destruct (decide (is_close_event ev = true)) as [Hc|Hc].
  - destruct ev; try done. unfold Renderer_closes. cbn [List.filter is_close_event].
    destruct (decide (a < 5)) as [Hlt|Hge].
    + specialize (IH (S a) w1 Hmax' Ha' ltac:(lia) Hno).
      destruct (Renderer.run evs w1) as [w2 e2]. simpl in *.
      rewrite Renderer_scheduled_app, Hs, IH.
      replace (5 - a) with (S (5 - S a)) by lia. done.
    + assert (a = 5) as -> by lia.
      specialize (IH 5 w1 Hmax' Ha' ltac:(lia) Hno).
      destruct (Renderer.run evs w1) as [w2 e2]. simpl in *.
      rewrite Renderer_scheduled_app, Hs, IH. by rewrite !take_nil.
  - assert (Renderer.reconnectAttempts (Renderer.client w1) = a ∧ Renderer.scheduled e1 = [])
      as [Ha1 Hs1] by (destruct ev; done).
    specialize (IH a w1 Hmax' Ha1 Hle Hno).
    destruct (Renderer.run evs w1) as [w2 e2]. simpl in *.
    rewrite Renderer_scheduled_app, Hs1, IH. unfold Renderer_closes. simpl.
    by destruct (is_close_event ev).
Qed.

Lemma Daemon_scheduled_run evs : ∀ d,
  Daemon.scheduled (Daemon.run evs d).2 = replicate (Daemon_closes evs) 2000%Z.
Proof.
  induction evs as [|ev evs IH]; intros d; [done |].
  cbn [Daemon.run].
  assert (Daemon.scheduled (Daemon.handle ev d).2
          = match ev with Daemon.ws_close => [2000%Z] | _ => [] end) as Hs.
  { destruct ev as [| |m| | | | | |]; try done.
    simpl. unfold Daemon.onmessage.
    destruct (decide (Message.type m = "connection_ack"));
      destruct (decide (Message.type m = "data"));
      destruct (decide (Message.type m = "error")); try done;
      destruct (truthy (Message.payload_errors m)); try done;
      by destruct (Message.payload_componentUpdate m). }
  destruct (Daemon.handle ev d) as [d1 e1]. specialize (IH d1).
  destruct (Daemon.run evs d1) as [d2 e2]. simpl in *.
  unfold Daemon.scheduled in *. rewrite omap_app, Hs, IH.
  unfold Daemon_closes. by destruct ev.
Qed.

(** C3, as the code has it: the two clients reconnect differently.  The
    renderer's client counts its attempts since the last opening: a close
    schedules the next [connect()] after 2000 ms times the new count while
    fewer than [maxReconnectAttempts] = 5 attempts were made, and only logs
    that the maximum is reached otherwise; an opening resets the count.  So
    over any stretch without an opening the closes schedule the delays
    2000, 4000, ..., 10000 ms, one each, and no sixth.  The daemon's client
    keeps no count: every close schedules [connectToRegistry()] after
    2000 ms, however many came before. *)
Theorem reconnection_policies :
  (∀ w sock,
     (Renderer.handle (Renderer.ws_closed sock) w).2
     = if decide (Renderer.reconnectAttempts (Renderer.client w)
                  < Renderer.maxReconnectAttempts (Renderer.client w))
       then [Renderer.console_log "Reconnecting";
             Renderer.setTimeout_connect
               (2000 * Z.of_nat (S (Renderer.reconnectAttempts (Renderer.client w))))]
       else [Renderer.console_log "Max reconnection attempts reached"])
  ∧ (∀ w sock,
       Renderer.reconnectAttempts
         (Renderer.client (Renderer.handle (Renderer.ws_open sock) w).1) = 0)
  ∧ (∀ url evs,
       Renderer.maxReconnectAttempts
         (Renderer.client (Renderer.run evs (Renderer.boot url)).1) = 5)
  ∧ (∀ evs w,
       Renderer.maxReconnectAttempts (Renderer.client w) = 5 →
       Renderer.reconnectAttempts (Renderer.client w) = 0 →
       Forall (fun ev => Renderer_open ev = false) evs →
       follows_backoff 2000 5 (Renderer_closes evs)
         (Renderer.scheduled (Renderer.run evs w).2))
  ∧ (∀ evs d,
       Daemon.scheduled (Daemon.run evs d).2
       = replicate (Daemon_closes evs) 2000%Z).
Proof.
  split_and!.
  - intros w sock. apply onclose_effects.
  - intros w sock. by destruct (handle_counters (Renderer.ws_open sock) w) as [_ ->].
  - apply Renderer_run_max.
  - intros evs w Hmax Ha Hno. unfold follows_backoff, linear_backoff.
    by rewrite (backoff_from evs 0 w Hmax Ha ltac:(lia) Hno).
  - intros evs d. apply Daemon_scheduled_run.
Qed.

(** The renderer's client loses the daemon and five reconnections fail: six
    closes, five delays, then the log of the maximum. *)
Lemma reconnection_policies_witness :
  Renderer.maxReconnectAttempts (Renderer.client renderer_subscribed) = 5
  ∧ Renderer.reconnectAttempts (Renderer.client renderer_subscribed) = 0
  ∧ Forall (fun ev => Renderer_open ev = false) (renderer_losses 5)
  ∧ Renderer_closes (renderer_losses 5) = 6
  ∧ Renderer.scheduled (Renderer.run (renderer_losses 5) renderer_subscribed).2
    = [2000; 4000; 6000; 8000; 10000]%Z.
Proof.
  assert (Hno : Forall (fun ev => Renderer_open ev = false) (renderer_losses 5))
    by (repeat constructor).
  split; [reflexivity |]. split; [reflexivity |]. split; [exact Hno |].
  split; [reflexivity |].
  exact (proj1 (proj2 (proj2 (proj2 reconnection_policies)))
           (renderer_losses 5) renderer_subscribed eq_refl eq_refl Hno).
Defined.

(** C3, as stated, fails for the daemon's client: after six losses in a row
    it has scheduled six reconnections, each after 2000 ms, and made the
    sixth (seven sockets in all), where the policy allows five, after 2000,
    4000, 6000, 8000 and 10000 ms. *)
Lemma daemon_reconnects_without_backoff_or_cap :
  Daemon_closes six_losses = 6
  ∧ Daemon.scheduled (Daemon.run six_losses Daemon.new).2
    = [2000; 2000; 2000; 2000; 2000; 2000]%Z
  ∧ Daemon_sockets (Daemon.run six_losses Daemon.new).2 = 7
  ∧ ¬ follows_backoff 2000 5 6 (Daemon.scheduled (Daemon.run six_losses Daemon.new).2).
Proof.
  split_and!; try reflexivity.
  intros H. vm_compute in H. discriminate.
Qed.

(** ** Disconnecting *)

Lemma ws_is_open_with_client c w :
  Renderer.ws c = Renderer.ws (Renderer.client w) →
  Renderer.ws_is_open (Renderer.with_client c w) = Renderer.ws_is_open w.
Proof. unfold Renderer.ws_is_open. simpl. by intros ->. Qed.

(** What the owner's [disconnect()] transmits is what the client sends for
    it. *)
Lemma transmitted_of_client es type :
  Page.transmitted ((DisplaySystem.of_client <$> es) ++ [DisplaySystem.notify type])
  = Renderer.sent es.
Proof.
  unfold Page.transmitted. rewrite omap_app. simpl. rewrite app_nil_r.
  f_equal. induction es as [|e es IH]; [done |].
  rewrite fmap_cons, omap_cons_eq. simpl. by rewrite IH.
Qed.

(** C4, as the code has it.  The client's [disconnect()] closes the socket
    if there is one and does nothing else: it transmits nothing, no stop in
    particular, and leaves the client object as it was, with no mark that
    the close was asked for.  The close event that follows is handled like
    any other: it schedules a reconnection while fewer than
    [maxReconnectAttempts] attempts were made since the last opening.  The
    stop is the owner's: [ComponentDisplaySystem.disconnect()] first runs
    the function [subscribe] returned, if it holds it, which transmits the
    stop when the client is connected and its socket open, and only then
    has the client close the socket.  That is the only case: an owner that
    does not hold the function, because its [connect()] has not completed,
    transmits no stop, whatever the state of the client; nor does one whose
    client is not connected or has no open socket. *)
Theorem disconnect_only_closes_the_socket :
  (∀ w,
     let '(w', es) := Renderer.disconnect w in
     Renderer.client w' = Renderer.client w
     ∧ es = match Renderer.ws (Renderer.client w) with
            | Some sock => [Renderer.ws_close sock]
            | None => []
            end)
  ∧ (∀ w sock,
       Renderer.reconnectAttempts (Renderer.client w)
       < Renderer.maxReconnectAttempts (Renderer.client w) →
       Renderer.scheduled
         (Renderer.handle (Renderer.ws_closed sock) (Renderer.disconnect w).1).2
       = [(2000 * Z.of_nat (S (Renderer.reconnectAttempts (Renderer.client w))))%Z])
  ∧ (∀ s sock,
       DisplaySystem.subscriptionCleanup s = true →
       Renderer.connected (Renderer.client (DisplaySystem.graphqlClient s)) = true →
       Renderer.ws (Renderer.client (DisplaySystem.graphqlClient s)) = Some sock →
       Renderer.sockets (DisplaySystem.graphqlClient s) !! sock = Some Renderer.OPEN →
       (DisplaySystem.disconnect s).2
       = [DisplaySystem.of_client
            (Renderer.ws_send sock (stop "renderer-subscription"));
          DisplaySystem.of_client (Renderer.ws_close sock);
          DisplaySystem.notify "disconnected"])
  ∧ (∀ s,
       Page.transmitted (DisplaySystem.disconnect s).2
       = if DisplaySystem.subscriptionCleanup s
            && Renderer.connected (Renderer.client (DisplaySystem.graphqlClient s))
            && Renderer.ws_is_open (DisplaySystem.graphqlClient s)
         then [stop "renderer-subscription"] else []).
Proof.
  split_and!.
  - intros w. unfold Renderer.disconnect.
    by destruct (Renderer.ws (Renderer.client w)).
  - intros w sock Hlt. rewrite handle_scheduled.
    assert (Renderer.client (Renderer.disconnect w).1 = Renderer.client w) as ->.
    { unfold Renderer.disconnect. by destruct (Renderer.ws (Renderer.client w)). }
    by rewrite decide_True.
  - intros s sock Hcleanup Hconn Hws Hopen. unfold DisplaySystem.disconnect.
    rewrite Hcleanup. unfold Renderer.unsubscribe. rewrite Hconn.
    rewrite (send_open _ _ sock); [| done | done].
    unfold Renderer.disconnect. simpl. rewrite Hws. done.
  - intros s. unfold DisplaySystem.disconnect.
    assert (Hd : ∀ w, Renderer.sent (Renderer.disconnect w).2 = []).
    { intros w. unfold Renderer.disconnect.
      by destruct (Renderer.ws (Renderer.client w)). }
    destruct (DisplaySystem.subscriptionCleanup s); simpl.
    + unfold Renderer.unsubscribe.
      destruct (Renderer.connected (Renderer.client (DisplaySystem.graphqlClient s)));
        simpl.
      * match goal with |- context [Renderer.send ?m ?w1] =>
          pose proof (sent_send m w1) as Hs; pose proof (Hd (Renderer.send m w1).1);
          destruct (Renderer.send m w1) as [w2 e2]
        end.
        simpl in *. destruct (Renderer.disconnect w2) as [w3 e3]. simpl in *.
        rewrite transmitted_of_client, Renderer_sent_app, Hs.
        rewrite ws_is_open_with_client by done.
        match goal with H : Renderer.sent e3 = [] |- _ => rewrite H end.
        by rewrite app_nil_r.
      * match goal with |- context [Renderer.disconnect ?w1] =>
          pose proof (Hd w1); destruct (Renderer.disconnect w1) as [w3 e3]
        end.
        simpl in *. by rewrite transmitted_of_client.
    + pose proof (Hd (DisplaySystem.graphqlClient s)).
      destruct (Renderer.disconnect (DisplaySystem.graphqlClient s)) as [w3 e3].
      simpl in *. by rewrite transmitted_of_client.
Qed.

(** The connected and subscribed client, and its owner; and an owner whose
    first connection failed, after its client has reconnected by itself:
    the client is connected, its socket is open, and [disconnect()]
    transmits no stop. *)
Lemma disconnect_only_closes_the_socket_witness :
  (Renderer.reconnectAttempts (Renderer.client renderer_subscribed)
   < Renderer.maxReconnectAttempts (Renderer.client renderer_subscribed)
   ∧ Renderer.scheduled
       (Renderer.handle (Renderer.ws_closed 0)
          (Renderer.disconnect renderer_subscribed).1).2
     = [2000%Z])
  ∧ (DisplaySystem.subscriptionCleanup display_connected = true
     ∧ (DisplaySystem.disconnect display_connected).2
       = [DisplaySystem.of_client
            (Renderer.ws_send 0 (stop "renderer-subscription"));
          DisplaySystem.of_client (Renderer.ws_close 0);
          DisplaySystem.notify "disconnected"])
  ∧ (let s := Page.system
                (Page.run reconnection_succeeds page_after_failed_connect).1 in
     DisplaySystem.subscriptionCleanup s = false
     ∧ Renderer.connected (Renderer.client (DisplaySystem.graphqlClient s)) = true
     ∧ Renderer.ws_is_open (DisplaySystem.graphqlClient s) = true
     ∧ Page.transmitted (DisplaySystem.disconnect s).2 = []).
Proof.
  destruct disconnect_only_closes_the_socket as (_ & Hclose & Howner & Hstop).
  split; [|split].
  - split; [vm_compute; lia |].
    apply (Hclose renderer_subscribed 0). vm_compute; lia.
  - split; [reflexivity |].
    apply (Howner display_connected 0); reflexivity.
  - cbv zeta. split; [reflexivity |]. split; [reflexivity |].
    split; [reflexivity |].
    exact (Hstop (Page.system
                    (Page.run reconnection_succeeds page_after_failed_connect).1)).
Defined.

(** C4, as stated, fails: the subscribed client is disconnected, its socket
    closes, and the close handler schedules a reconnection, which the timer
    then makes; and the client's [disconnect()] sent no stop.  The same
    reconnection follows when the owner disconnects, stop first. *)
Lemma disconnect_is_followed_by_reconnection :
  (Renderer.run
     [Renderer.disconnect_called; Renderer.ws_closed 0;
      Renderer.timer_fired Renderer.constructed]
     renderer_subscribed).2
  = [Renderer.ws_close 0;
     Renderer.console_log "Reconnecting";
     Renderer.setTimeout_connect 2000;
     Renderer.new_WebSocket 1 renderer_url "graphql-ws"]
  ∧ (Renderer.run
       [Renderer.unsubscribe_called; Renderer.disconnect_called;
        Renderer.ws_closed 0; Renderer.timer_fired Renderer.constructed]
       renderer_subscribed).2
    = [Renderer.ws_send 0 (stop "renderer-subscription");
       Renderer.ws_close 0;
       Renderer.console_log "Reconnecting";
       Renderer.setTimeout_connect 2000;
       Renderer.new_WebSocket 1 renderer_url "graphql-ws"]
  ∧ ¬ disconnect_is_final renderer_subscribed
        [Renderer.ws_closed 0; Renderer.timer_fired Renderer.constructed].
Proof.
  split; [reflexivity |]. split; [reflexivity |].
  intros H. destruct H as [Hs _].
  - intros made Hin. repeat (apply elem_of_cons in Hin as [Hin|Hin]; [done |]).
    by apply elem_of_nil in Hin.
  - vm_compute in Hs. discriminate.
Qed.

(** * More of the code *)

(** ** Histories as the components stored, in order *)

Lemma store_snoc cs c m :
  store (cs ++ [c]) m = JsMap.set (Component.id c) c (store cs m).
Proof. unfold store. by rewrite foldl_app. Qed.

Lemma store_history cs m : history_ok m → history_ok (store cs m).
Proof.
  intros Hok. induction cs as [|c cs IH] using rev_ind; [done |].
  rewrite store_snoc. by apply history_set.
Qed.

(** Storing components whose ids are new and distinct lists them after what
    was there, in order. *)
Lemma store_fresh cs m :
  history_ok m →
  NoDup (Component.id <$> cs) →
  (∀ c, c ∈ cs → Component.id c ∉ JsMap.keys m) →
  JsMap.values (store cs m) = JsMap.values m ++ cs.
Proof.
  intros Hok. induction cs as [|c cs IH] using rev_ind; intros Hnd Hnew.
  - by rewrite app_nil_r.
  - rewrite fmap_app in Hnd. apply NoDup_app in Hnd as (Hnd & Hdis & _).
    rewrite store_snoc.
    assert (JsMap.values (store cs m) = JsMap.values m ++ cs) as Hcs.
    { apply IH; [done |]. intros c' Hc'. apply Hnew. apply elem_of_app. by left. }
    pose proof (store_history cs m Hok) as [Hkeyed _].
    rewrite JsMap_values_set_new, Hcs; [by rewrite app_assoc |].
    rewrite <- (keyed_ids _ Hkeyed), Hcs, fmap_app.
    intros [Hin|Hin]%elem_of_app.
    + destruct Hok as [Hk _]. rewrite (keyed_ids _ Hk) in Hin.
      apply (Hnew c); [|done]. apply elem_of_app. right. constructor.
    + apply (Hdis _ Hin). simpl. constructor.
Qed.

(** Whatever is listed was stored or was there before. *)
Lemma store_elem cs m c :
  c ∈ JsMap.values (store cs m) → c ∈ JsMap.values m ∨ c ∈ cs.
Proof.
  induction cs as [|c' cs IH] using rev_ind; [by left |].
  rewrite store_snoc. intros Hin.
  assert (c = c' ∨ c ∈ JsMap.values (store cs m)) as [->|Hold].
  { clear IH. revert Hin. generalize (store cs m). intros m0.
    unfold JsMap.values. induction m0 as [|[k v] m0 IH]; simpl.
    - intros ->%list_elem_of_singleton. by left.
    - case_decide; simpl.
      + intros [->|Hin]%elem_of_cons; [by left |]. right. by right.
      + intros [->|Hin]%elem_of_cons; [right; by left |].
        destruct (IH Hin) as [->|?]; [by left |]. right. by right. }
  - right. apply elem_of_app. right. constructor.
  - destruct (IH Hold) as [?|?]; [by left |]. right. apply elem_of_app. by left.
Qed.

Lemma store_length cs m : length (store cs m) ≤ length m + length cs.
Proof.
  induction cs as [|c cs IH] using rev_ind; [simpl; lia |].
  rewrite store_snoc, length_app. simpl.
  assert (∀ k v (m0 : JsMap.t Component.t),
            length (JsMap.set k v m0) ≤ S (length m0)) as Hset.
  { intros k v m0. induction m0 as [|[k0 v0] m0 IHm]; simpl; [lia |].
    case_decide; simpl; lia. }
  specialize (Hset (Component.id c) c (store cs m)). lia.
Qed.

Lemma Registry_run_components qs : ∀ r,
  Registry.components (Registry.run qs r)
  = store (omap Registry.rendered qs) (Registry.components r).
Proof.
  induction qs as [|q qs IH]; intros r; [done |].
  unfold Registry.run in *. cbn [foldl]. rewrite IH, Registry_serve_components.
  rewrite omap_cons_eq. by destruct (Registry.rendered q).
Qed.

Lemma Daemon_run_components evs : ∀ d,
  Daemon.components (Daemon.run evs d).1
  = store (omap Daemon.forwarded evs) (Daemon.components d).
Proof.
  induction evs as [|ev evs IH]; intros d; [done |].
  cbn [Daemon.run]. pose proof (Daemon_handle_components ev d) as Hc.
  destruct (Daemon.handle ev d) as [d1 e1]. specialize (IH d1).
  destruct (Daemon.run evs d1) as [d2 e2]. cbn [fst] in *. rewrite IH, Hc.
  rewrite omap_cons_eq. by destruct (Daemon.forwarded ev).
Qed.



(** X2: the history of the registry holds only what [renderComponent]
    minted.  The components of the debug endpoint are published but never
    listed, so the listing is never longer than the number of renders. *)
Theorem registry_history_holds_only_renders :
  ∀ (qs : list Registry.Request),
    (∀ c, c ∈ Registry.getComponents (Registry.run qs Registry.new) →
          c ∈ omap Registry.rendered qs)
    ∧ length (Registry.getComponents (Registry.run qs Registry.new))
      ≤ length (omap Registry.rendered qs)
    ∧ ∀ now_ms now,
        Registry.getComponents
          (Registry.run (qs ++ [Registry.POST_test_subscription now_ms now])
             Registry.new)
        = Registry.getComponents (Registry.run qs Registry.new).
Proof.
  intros qs. unfold Registry.getComponents. split_and!.
  - intros c Hin. rewrite Registry_run_components in Hin.
    destruct (store_elem _ _ _ Hin) as [Hnil|?]; [|done].
    by apply elem_of_nil in Hnil.
  - rewrite Registry_run_components. unfold JsMap.values. rewrite length_fmap.
    pose proof (store_length (omap Registry.rendered qs) (Registry.components Registry.new)).
    simpl in *. lia.
  - intros now_ms now. by rewrite Registry_run_snoc.
Qed.

Lemma registry_history_holds_only_renders_witness :
  let qs := [backlog_render 0; Registry.POST_test_subscription 1700000000000 "now"] in
  Component.mk (uuid_number 0) (Some (JStr "CARD")) None "2024-01-01T00:00:00.000Z"
    ∈ Registry.getComponents (Registry.run qs Registry.new)
  ∧ Component.mk (uuid_number 0) (Some (JStr "CARD")) None "2024-01-01T00:00:00.000Z"
      ∈ omap Registry.rendered qs.
Proof.
  intros qs.
  assert (Hin : Component.mk (uuid_number 0) (Some (JStr "CARD")) None
                  "2024-01-01T00:00:00.000Z"
                ∈ Registry.getComponents (Registry.run qs Registry.new))
    by (vm_compute; constructor).
  split; [exact Hin |].
  exact (proj1 (registry_history_holds_only_renders qs) _ Hin).
Defined.

(** X4: the daemon lists the components it forwarded, in the order they
    arrived, when their ids are distinct. *)
Theorem daemon_lists_what_it_forwarded (evs : list Daemon.Event) :
  NoDup (Component.id <$> omap Daemon.forwarded evs) →
  Daemon.getComponents (Daemon.run evs Daemon.new).1 = omap Daemon.forwarded evs.
Proof.
  intros Hnd. unfold Daemon.getComponents. rewrite Daemon_run_components.
  rewrite store_fresh; [done | by split; constructor | done |].
  intros c _. simpl. apply not_elem_of_nil.
Qed.

Lemma daemon_lists_what_it_forwarded_witness :
  let evs := [Daemon.started; Daemon.ws_open; Daemon.ws_message connection_ack;
              Daemon.ws_message (data_message_of card);
              Daemon.ws_message data_message_with_errors;
              Daemon.ws_message (data_message_of notification)] in
  NoDup (Component.id <$> omap Daemon.forwarded evs)
  ∧ Daemon.getComponents (Daemon.run evs Daemon.new).1 = [card; notification].
Proof.
  intros evs.
  assert (Hnd : NoDup (Component.id <$> omap Daemon.forwarded evs)).
  { apply (bool_decide_unpack _). by vm_compute. }
  split; [exact Hnd |].
  exact (daemon_lists_what_it_forwarded evs Hnd).
Defined.

(** X5: the daemon never looks at the subscription id of a message: with
    any other id, or none, the message is handled the same. *)
Theorem daemon_ignores_the_subscription_id :
  ∀ (message : Message.t) (id : option string) (d : Daemon.ComponentDaemon),
    Daemon.handle (Daemon.ws_message (with_id id message)) d
    = Daemon.handle (Daemon.ws_message message) d
    ∧ Daemon.forwarded (Daemon.ws_message (with_id id message))
      = Daemon.forwarded (Daemon.ws_message message).
Proof. intros message id d. by destruct message. Qed.

(** ** Fan-out *)

(** An iterator that has been asked for a value hears everything published
    under its trigger from then on, in order. *)
Lemma listening_sees_all trigger cs p h :
  PubSub.iterators p !! h = Some (PubSub.newIterator trigger) →
  ∃ it, PubSub.iterators (performs cs (PubSub.next h p)) !! h = Some it
        ∧ PubSub.seen it = published trigger cs.
Proof.
  intros Hh.
  assert (PubSub.iterators (PubSub.next h p) !! h
          = Some (PubSub.next_value (PubSub.newIterator trigger))) as Hn.
  { simpl. by rewrite list_lookup_alter_eq, Hh. }
  destruct (performs_seen trigger cs _ h _ Hn)
    as (it & late & Hit & _ & _ & Hseen & _ & Hall); [by right | done |].
  exists it. split; [done |]. rewrite Hseen. by rewrite (Hall eq_refl).
Qed.

(** X3: fan-out is first in, first out, and complete.  Once a subscriber
    of the registry has asked for its first value, it receives or has
    queued every component minted afterwards (by [renderComponent] or by the
    debug endpoint), each once, in the order of publication, whatever else
    is requested and however far it has read; likewise a subscriber of the
    daemon for the components the daemon forwards. *)
Theorem subscribers_see_every_component_in_order :
  (∀ qs qs' : list Registry.Request,
     let r := Registry.run qs Registry.new in
     let '(r1, h) := Registry.subscribe_componentUpdate r in
     let r2 := (Registry.serve (Registry.Iterator_next h) r1).1 in
     ∃ it, PubSub.iterators (Registry.pubsub (Registry.run qs' r2)) !! h = Some it
           ∧ PubSub.seen it = componentUpdate <$> omap Registry.minted qs')
  ∧ (∀ evs evs' : list Daemon.Event,
       let d := (Daemon.run evs Daemon.new).1 in
       let '(d1, h) := Daemon.subscribe_rendererUpdate d in
       let d2 := (Daemon.handle (Daemon.Iterator_next h) d1).1 in
       ∃ it, PubSub.iterators (Daemon.pubsub (Daemon.run evs' d2).1) !! h = Some it
             ∧ PubSub.seen it = rendererUpdate <$> omap Daemon.forwarded evs').
Proof.
  split.
  - intros qs qs' r.
    pose proof (newIterator_lookup "COMPONENT_UPDATE" (Registry.pubsub r)) as Hnew.
    unfold Registry.subscribe_componentUpdate.
    destruct (PubSub.asyncIterableIterator "COMPONENT_UPDATE" (Registry.pubsub r))
      as [p h] eqn:Hp. simpl in Hnew. lazy beta iota zeta.
    rewrite Registry_run_pubsub. cbn [Registry.serve fst Registry.pubsub].
    destruct (listening_sees_all "COMPONENT_UPDATE" (omap Registry_call qs') p h Hnew)
      as (it & Hit & Hseen).
    exists it. split; [done |]. by rewrite Hseen, Registry_published.
  - intros evs evs' d.
    pose proof (newIterator_lookup "RENDERER_UPDATE" (Daemon.pubsub d)) as Hnew.
    unfold Daemon.subscribe_rendererUpdate.
    destruct (PubSub.asyncIterableIterator "RENDERER_UPDATE" (Daemon.pubsub d))
      as [p h] eqn:Hp. simpl in Hnew. lazy beta iota zeta.
    rewrite Daemon_run_pubsub. cbn [Daemon.handle fst Daemon.pubsub].
    destruct (listening_sees_all "RENDERER_UPDATE" (omap Daemon_call evs') p h Hnew)
      as (it & Hit & Hseen).
    exists it. split; [done |]. by rewrite Hseen, Daemon_published.
Qed.

(** ** The renderer's client over its runs *)

Lemma send_world message w : (Renderer.send message w).1 = w.
Proof. by rewrite send_spec. Qed.

Lemma calls_send message w : calls (Renderer.send message w).2 = [].
Proof.
  rewrite send_spec. simpl. destruct (Renderer.ws_is_open w); [|done].
  by destruct (Renderer.ws (Renderer.client w)).
Qed.

Lemma handle_subscriptions ev w :
  Renderer.subscriptions (Renderer.client (Renderer.handle ev w).1)
  = match ev with
    | Renderer.subscribe_called cb =>
        JsMap.set "renderer-subscription" cb
          (Renderer.subscriptions (Renderer.client w))
    | Renderer.unsubscribe_called =>
        JsMap.delete "renderer-subscription"
          (Renderer.subscriptions (Renderer.client w))
    | _ => Renderer.subscriptions (Renderer.client w)
    end.
Proof.
  destruct ev as [made| |cb| |s|s msg|s|s|made]; simpl; try done;
    try (by destruct made).
  - unfold Renderer.disconnect. by destruct (Renderer.ws (Renderer.client w)).
  - unfold Renderer.unsubscribe.
    destruct (Renderer.connected (Renderer.client w)); [|done].
    by rewrite send_world.
  - unfold Renderer.onopen. by rewrite send_spec.
  - unfold Renderer.handleMessage, Renderer.startSubscription.
    rewrite send_spec. by repeat case_match.
  - unfold Renderer.onclose, Renderer.attemptReconnect. simpl. by case_decide.
Qed.

(** From the start the client holds at most one subscription: the callback
    subscribed last, unless unsubscribed since. *)
Lemma run_subscriptions url evs :
  Renderer.subscriptions (Renderer.client (Renderer.run evs (Renderer.boot url)).1)
  = match current_callback evs with
    | Some cb => [("renderer-subscription", cb)]
    | None => []
    end.
Proof.
  induction evs as [|ev evs IH] using rev_ind; [done |].
  rewrite Renderer_run_snoc. unfold current_callback in *. rewrite foldl_app.
  destruct (Renderer.run evs (Renderer.boot url)) as [w1 e1]. simpl in IH.
  pose proof (handle_subscriptions ev w1) as Hs.
  destruct (Renderer.handle ev w1) as [w2 e2]. simpl in *. rewrite Hs, IH.
  destruct ev; try done; by destruct (foldl callback_after None evs).
Qed.

Lemma handle_calls ev w :
  calls (Renderer.handle ev w).2
  = match ev with
    | Renderer.ws_message _ message =>
        if decide (Message.type message = "data") then
          match Message.id message
                  ≫= (fun k => JsMap.get k (Renderer.subscriptions (Renderer.client w))),
                Message.payload_rendererUpdate message with
          | Some cb, Some c => [(cb, c)]
          | _, _ => []
          end
        else []
    | _ => []
    end.
Proof.
  destruct ev as [made| |cb| |s|s msg|s|s|made]; simpl; try done;
    try (by destruct made).
  - unfold Renderer.disconnect. by destruct (Renderer.ws (Renderer.client w)).
  - unfold Renderer.unsubscribe.
    destruct (Renderer.connected (Renderer.client w)); [|done].
    apply calls_send.
  - unfold Renderer.onopen.
    match goal with |- context [Renderer.send ?m ?w1] =>
      pose proof (calls_send m w1) as Hc; destruct (Renderer.send m w1) as [w2 e2]
    end.
    simpl in *. unfold calls in *. by rewrite omap_app, Hc.
  - unfold Renderer.handleMessage.
    destruct (decide (Message.type msg = "connection_ack")) as [Hack|_].
    + rewrite Hack. simpl. apply calls_send.
    + destruct (decide (Message.type msg = "data")); [by repeat case_match |].
      by repeat case_match.
  - unfold Renderer.onclose, Renderer.attemptReconnect. simpl. by case_decide.
Qed.

(** X6: when the renderer's client calls a callback.  After any run from
    the start, an event makes the client call a callback only if it is a
    data message that names the subscription "renderer-subscription" and
    carries a [rendererUpdate], and only while a callback is subscribed:
    then the callback subscribed last is called, once, with that component.
    Before any [subscribe], after an unsubscribe, for another id or without
    a component, nothing is called. *)
Theorem callback_called_exactly_for_subscribed_data :
  ∀ (url : string) (evs : list Renderer.Event) (ev : Renderer.Event),
    calls (Renderer.handle ev (Renderer.run evs (Renderer.boot url)).1).2
    = match ev, current_callback evs with
      | Renderer.ws_message _ message, Some cb => delivery cb message
      | _, _ => []
      end.
Proof.
  intros url evs ev. rewrite handle_calls.
  destruct ev as [made| |cb| |s|s msg|s|s|made]; try by destruct (current_callback evs).
  rewrite run_subscriptions. unfold delivery.
  destruct (decide (Message.type msg = "data")); [|by destruct (current_callback evs)].
  destruct (current_callback evs) as [cb|].
  - destruct (Message.id msg) as [k|]; cbn [mbind option_bind JsMap.get].
    + destruct (decide ("renderer-subscription" = k)) as [<-|Hne].
      * by rewrite decide_True.
      * rewrite decide_False; [done | congruence].
    + by rewrite decide_False.
  - destruct (Message.id msg); simpl; by repeat case_match.
Qed.

Lemma Renderer_run_effects_snoc evs ev w :
  (Renderer.run (evs ++ [ev]) w).2
  = (Renderer.run evs w).2 ++ (Renderer.handle ev (Renderer.run evs w).1).2
  ∧ (Renderer.run (evs ++ [ev]) w).1
    = (Renderer.handle ev (Renderer.run evs w).1).1.
Proof.
  rewrite Renderer_run_snoc. destruct (Renderer.run evs w) as [w1 e1].
  simpl. by destruct (Renderer.handle ev w1).
Qed.

Lemma unsubscribe_not_open w :
  Renderer.ws_is_open w = false → (Renderer.unsubscribe w).2 = [].
Proof.
  intros Hoff. unfold Renderer.unsubscribe.
  destruct (Renderer.connected (Renderer.client w)); [|done].
  by rewrite send_closed.
Qed.

(** X7: retries are bounded.  After any run from the start the attempt
    counter is at most 5, and the reconnections scheduled so far number at
    most five for the start and five more for each opening of a socket. *)
Theorem reconnections_are_bounded :
  ∀ (url : string) (evs : list Renderer.Event),
    let w := (Renderer.run evs (Renderer.boot url)).1 in
    Renderer.reconnectAttempts (Renderer.client w) ≤ 5
    ∧ length (Renderer.scheduled (Renderer.run evs (Renderer.boot url)).2)
      ≤ 5 * (1 + length (List.filter Renderer_open evs)).
Proof.
  intros url evs.
  assert (Renderer.reconnectAttempts
            (Renderer.client (Renderer.run evs (Renderer.boot url)).1) ≤ 5
          ∧ length (Renderer.scheduled (Renderer.run evs (Renderer.boot url)).2)
            ≤ 5 * length (List.filter Renderer_open evs)
              + Renderer.reconnectAttempts
                  (Renderer.client (Renderer.run evs (Renderer.boot url)).1))
    as [Ha Hs]; [|simpl; lia].
  induction evs as [|ev evs [IHa IHs]] using rev_ind; [simpl; lia |].
  destruct (Renderer_run_effects_snoc evs ev (Renderer.boot url)) as [-> ->].
  pose proof (Renderer_run_max url evs) as Hmax.
  pose proof (handle_counters ev (Renderer.run evs (Renderer.boot url)).1) as [_ Hc].
  pose proof (handle_scheduled ev (Renderer.run evs (Renderer.boot url)).1) as Hsch.
  simpl in Hc. rewrite Hc, Renderer_scheduled_app, length_app, Hsch.
  rewrite List.filter_app, length_app, Hmax.
  destruct ev; simpl; try lia.
  repeat case_decide; simpl; lia.
Qed.

Lemma handle_sockets ev w :
  length (Renderer.sockets (Renderer.handle ev w).1)
  = length (Renderer.sockets w) + (if is_connect_event ev then 1 else 0)
  ∧ Renderer.ws (Renderer.client (Renderer.handle ev w).1)
    = if is_connect_event ev then Some (length (Renderer.sockets w))
      else Renderer.ws (Renderer.client w).
Proof.
  destruct ev as [made| |cb| |s|s msg|s|s|made]; simpl.
  - destruct made; simpl; [by rewrite length_app | split; [lia | done]].
  - unfold Renderer.disconnect, Renderer.closing.
    destruct (Renderer.ws (Renderer.client w)) as [sock|] eqn:Hws; simpl; [|by rewrite Hws].
    rewrite Hws. split; [|done].
    destruct (Renderer.sockets w !! sock) as [[]|]; rewrite ?length_insert; lia.
  - split; [lia | done].
  - unfold Renderer.unsubscribe.
    destruct (Renderer.connected (Renderer.client w)); [|split; [simpl; lia | done]].
    rewrite send_world. split; [simpl; lia | done].
  - unfold Renderer.onopen. rewrite send_spec. simpl.
    rewrite length_insert. split; [lia | done].
  - unfold Renderer.handleMessage, Renderer.startSubscription. rewrite send_spec.
    repeat case_match; split; simpl; try lia; done.
  - unfold Renderer.onclose, Renderer.attemptReconnect. simpl.
    case_decide; simpl; rewrite length_insert; split; try lia; done.
  - split; [lia | done].
  - destruct made; simpl; [by rewrite length_app | split; [lia | done]].
Qed.

(** X8: the client always uses the socket it created last.  After any run
    from the start there are as many sockets as there were runs of
    [connect()] (called by the owner or by a reconnection timer) in which
    [new WebSocket] returned, and [ws] is the last of them, or [null] if
    there is none.  A [connect()] in which [new WebSocket] throws creates no
    socket and leaves the client, [ws] included, as it was: it only logs
    and rejects its promise. *)
Theorem client_holds_its_latest_socket :
  ∀ (url : string) (evs : list Renderer.Event),
    let w := (Renderer.run evs (Renderer.boot url)).1 in
    length (Renderer.sockets w) = length (List.filter is_connect_event evs)
    ∧ Renderer.ws (Renderer.client w)
      = match length (Renderer.sockets w) with
        | 0 => None
        | S n => Some n
        end
    ∧ Renderer.handle (Renderer.connect_called Renderer.threw) w
      = (w, [Renderer.console_log "Failed to create WebSocket";
             Renderer.reject_thrown])
    ∧ Renderer.handle (Renderer.timer_fired Renderer.threw) w
      = (w, [Renderer.console_log "Failed to create WebSocket";
             Renderer.reject_thrown]).
Proof.
  intros url evs. cbv zeta.
  assert (length (Renderer.sockets (Renderer.run evs (Renderer.boot url)).1)
          = length (List.filter is_connect_event evs)
          ∧ Renderer.ws (Renderer.client (Renderer.run evs (Renderer.boot url)).1)
            = match length (Renderer.sockets (Renderer.run evs (Renderer.boot url)).1) with
              | 0 => None
              | S n => Some n
              end) as [Hn Hws]; [|done].
  induction evs as [|ev evs [IHn IHws]] using rev_ind; [done |].
  destruct (Renderer_run_effects_snoc evs ev (Renderer.boot url)) as [_ ->].
  destruct (handle_sockets ev (Renderer.run evs (Renderer.boot url)).1) as [-> ->].
  rewrite List.filter_app, length_app, <- IHn. simpl.
  destruct (is_connect_event ev); simpl.
  - split; [done |]. by rewrite Nat.add_1_r.
  - rewrite Nat.add_0_r. split; [lia | done].
Qed.

(** X9: giving up is final until a socket opens.  From a client that has
    used up its five attempts, no run without an opening schedules a
    reconnection, not even one in which the owner calls [connect()] again
    and that connection fails: [connect()] does not reset the counter. *)
Theorem give_up_lasts_until_an_opening (evs : list Renderer.Event) (w : Renderer.World) :
  Renderer.maxReconnectAttempts (Renderer.client w) = 5 →
  Renderer.reconnectAttempts (Renderer.client w) = 5 →
  Forall (fun ev => Renderer_open ev = false) evs →
  Renderer.scheduled (Renderer.run evs w).2 = [].
Proof.
  intros Hmax Ha Hno.
  rewrite (backoff_from evs 5 w Hmax Ha ltac:(lia) Hno). simpl. apply take_nil.
Qed.

(** The client that gave up after [renderer_losses 5]; its owner calls
    [connect()], the new socket fails and closes. *)
Lemma give_up_lasts_until_an_opening_witness :
  let w := (Renderer.run (renderer_losses 5) renderer_subscribed).1 in
  let evs := [Renderer.connect_called Renderer.constructed;
              Renderer.ws_error 6; Renderer.ws_closed 6] in
  Renderer.maxReconnectAttempts (Renderer.client w) = 5
  ∧ Renderer.reconnectAttempts (Renderer.client w) = 5
  ∧ Forall (fun ev => Renderer_open ev = false) evs
  ∧ (Renderer.run evs w).2
    = [Renderer.new_WebSocket 6 renderer_url "graphql-ws"; Renderer.reject 6;
       Renderer.console_log "Max reconnection attempts reached"]
  ∧ Renderer.scheduled (Renderer.run evs w).2 = [].
Proof.
  intros w evs.
  assert (Hno : Forall (fun ev => Renderer_open ev = false) evs)
    by (repeat constructor).
  split; [reflexivity |]. split; [reflexivity |]. split; [exact Hno |].
  split; [reflexivity |].
  exact (give_up_lasts_until_an_opening evs w eq_refl eq_refl Hno).
Defined.

Lemma closing_not_open sock ss :
  Renderer.closing sock ss !! sock ≠ Some Renderer.OPEN.
Proof.
  unfold Renderer.closing.
  destruct (ss !! sock) as [st|] eqn:Hl; [|by rewrite Hl].
  assert (sock < length ss) by (by eapply lookup_lt_Some).
  destruct st; rewrite ?list_lookup_insert_eq by done; rewrite ?Hl; done.
Qed.

Lemma closing_idempotent sock ss :
  Renderer.closing sock (Renderer.closing sock ss) = Renderer.closing sock ss.
Proof.
  unfold Renderer.closing at 2.
  destruct (ss !! sock) as [st|] eqn:Hl.
  - assert (sock < length ss) by (by eapply lookup_lt_Some).
    destruct st; unfold Renderer.closing;
      rewrite ?list_lookup_insert_eq by done; rewrite ?Hl; done.
  - unfold Renderer.closing. by rewrite Hl.
Qed.

Lemma closing_other sock k ss :
  k ≠ sock → Renderer.closing sock ss !! k = ss !! k.
Proof.
  intros Hne. unfold Renderer.closing.
  destruct (ss !! sock) as [[]|]; try done; by rewrite list_lookup_insert_ne.
Qed.

(** X10: what [disconnect()] leaves behind.  After it [ws], the socket the
    client uses, is not open, so a stop sent afterwards, as by an
    unsubscribe, is not transmitted; a second [disconnect()] changes
    nothing more; and with no socket at all [disconnect()] does nothing.
    Every other socket the client created keeps its state: one that an
    earlier [connect()] opened and a later [connect()] replaced stays
    open. *)
Theorem disconnect_closes_the_current_socket_only :
  ∀ w : Renderer.World,
    Renderer.ws_is_open (Renderer.disconnect w).1 = false
    ∧ (∀ k, Renderer.ws (Renderer.client w) ≠ Some k →
            Renderer.sockets (Renderer.disconnect w).1 !! k
            = Renderer.sockets w !! k)
    ∧ (Renderer.unsubscribe (Renderer.disconnect w).1).2 = []
    ∧ (Renderer.disconnect (Renderer.disconnect w).1).1 = (Renderer.disconnect w).1
    ∧ (Renderer.ws (Renderer.client w) = None → Renderer.disconnect w = (w, [])).
Proof.
  intros w.
  assert (Hclosed : Renderer.ws_is_open (Renderer.disconnect w).1 = false).
  { unfold Renderer.disconnect, Renderer.ws_is_open.
    destruct (Renderer.ws (Renderer.client w)) as [sock|] eqn:Hws; simpl.
    - rewrite Hws. apply bool_decide_eq_false_2, closing_not_open.
    - by rewrite Hws. }
  split_and!.
  - exact Hclosed.
  - intros k Hk. unfold Renderer.disconnect.
    destruct (Renderer.ws (Renderer.client w)) as [sock|]; [|done].
    simpl. apply closing_other. by intros ->.
  - by apply unsubscribe_not_open.
  - unfold Renderer.disconnect.
    destruct (Renderer.ws (Renderer.client w)) as [sock|] eqn:Hws; simpl.
    + rewrite Hws. by rewrite closing_idempotent.
    + by rewrite Hws.
  - intros Hws. unfold Renderer.disconnect. by rewrite Hws.
Qed.

(** The client before it has any socket; and the client with two open
    sockets, of which [disconnect()] closes the second only. *)
Lemma disconnect_closes_the_current_socket_only_witness :
  (Renderer.ws (Renderer.client (Renderer.boot renderer_url)) = None
   ∧ Renderer.disconnect (Renderer.boot renderer_url)
     = (Renderer.boot renderer_url, []))
  ∧ (Renderer.ws (Renderer.client renderer_connected_twice) ≠ Some 0
     ∧ Renderer.sockets renderer_connected_twice
       = [Renderer.OPEN; Renderer.OPEN]
     ∧ Renderer.sockets (Renderer.disconnect renderer_connected_twice).1 !! 0
       = Some Renderer.OPEN).
Proof.
  assert (Hne : Renderer.ws (Renderer.client renderer_connected_twice) ≠ Some 0)
    by (intros H; discriminate H).
  split.
  - split; [reflexivity |].
    exact (proj2 (proj2 (proj2 (proj2 (disconnect_closes_the_current_socket_only
                                         (Renderer.boot renderer_url))))) eq_refl).
  - split; [exact Hne |]. split; [reflexivity |].
    exact (proj1 (proj2 (disconnect_closes_the_current_socket_only
                           renderer_connected_twice)) 0 Hne).
Defined.

(** An event other than an opening leaves a client whose [ws] is not open
    in that state, and makes it transmit nothing. *)
Lemma handle_not_open ev w :
  Renderer.ws_is_open w = false → Renderer_open ev = false →
  Renderer.ws_is_open (Renderer.handle ev w).1 = false
  ∧ Renderer.sent (Renderer.handle ev w).2 = [].
Proof.
  intros Hoff Hev. destruct ev as [made| |cb| |s|s msg|s|s|made]; try done;
    try (by destruct made); simpl.
  - destruct made; simpl; [|done].
    split; [|done]. unfold Renderer.ws_is_open. simpl.
    apply bool_decide_eq_false_2. by rewrite lookup_app_r, Nat.sub_diag.
  - split.
    + unfold Renderer.disconnect, Renderer.ws_is_open.
      destruct (Renderer.ws (Renderer.client w)) as [sock|] eqn:Hws; simpl.
      * rewrite Hws. apply bool_decide_eq_false_2, closing_not_open.
      * by rewrite Hws.
    + unfold Renderer.disconnect. by destruct (Renderer.ws (Renderer.client w)).
  - unfold Renderer.unsubscribe.
    destruct (Renderer.connected (Renderer.client w)); [|done].
    rewrite send_world, sent_send. by rewrite ws_is_open_with_client, Hoff.
  - unfold Renderer.handleMessage, Renderer.startSubscription.
    destruct (decide (Message.type msg = "connection_ack")).
    + by rewrite send_world, sent_send, Hoff.
    + by repeat case_match.
  - unfold Renderer.onclose, Renderer.attemptReconnect. simpl.
    assert (Renderer.ws_is_open (Renderer.set_state s Renderer.CLOSED w) = false)
      as Hset.
    { revert Hoff. unfold Renderer.ws_is_open, Renderer.set_state. simpl.
      destruct (Renderer.ws (Renderer.client w)) as [sock|]; [|done].
      intros Hoff%bool_decide_eq_false_1. apply bool_decide_eq_false_2.
      destruct (decide (s = sock)) as [->|Hne].
      - destruct (decide (sock < length (Renderer.sockets w))).
        + by rewrite list_lookup_insert_eq.
        + by rewrite list_insert_ge by lia.
      - by rewrite list_lookup_insert_ne. }
    case_decide; simpl; split; try done.
  - destruct made; simpl; [|done].
    split; [|done]. unfold Renderer.ws_is_open. simpl.
    apply bool_decide_eq_false_2. by rewrite lookup_app_r, Nat.sub_diag.
Qed.

(** X11: between the loss of a socket and the next opening nothing is
    transmitted.  From a client whose [ws] is not an open socket, over any
    run in which no socket opens, whatever the owner calls and whatever
    arrives, the client sends nothing, and [ws] is still not an open socket
    at the end. *)
Theorem nothing_is_sent_until_a_socket_opens
    (evs : list Renderer.Event) (w : Renderer.World) :
  Renderer.ws_is_open w = false →
  Forall (fun ev => Renderer_open ev = false) evs →
  Renderer.sent (Renderer.run evs w).2 = []
  ∧ Renderer.ws_is_open (Renderer.run evs w).1 = false.
Proof.
  revert w. induction evs as [|ev evs IH]; intros w Hoff Hno; [done |].
  apply Forall_cons in Hno as [Hev Hno]. cbn [Renderer.run].
  destruct (handle_not_open ev w Hoff Hev) as [Hoff1 Hs1].
  destruct (Renderer.handle ev w) as [w1 e1]. simpl in Hoff1, Hs1.
  destruct (IH w1 Hoff1 Hno) as [Hs2 Hoff2].
  destruct (Renderer.run evs w1) as [w2 e2]. simpl in *.
  by rewrite Renderer_sent_app, Hs1, Hs2.
Qed.

(** The subscribed client loses its socket; the owner unsubscribes and
    subscribes again, a reconnection starts, an acknowledgment strays in. *)
Lemma nothing_is_sent_until_a_socket_opens_witness :
  let w := (Renderer.handle (Renderer.ws_closed 0) renderer_subscribed).1 in
  let evs := [Renderer.unsubscribe_called;
              Renderer.subscribe_called DisplaySystem.handler;
              Renderer.timer_fired Renderer.constructed;
              Renderer.ws_message 0 connection_ack] in
  Renderer.ws_is_open w = false
  ∧ Forall (fun ev => Renderer_open ev = false) evs
  ∧ Renderer.sent (Renderer.run evs w).2 = [].
Proof.
  intros w evs.
  assert (Hno : Forall (fun ev => Renderer_open ev = false) evs)
    by (repeat constructor).
  split; [reflexivity |]. split; [exact Hno |].
  exact (proj1 (nothing_is_sent_until_a_socket_opens evs w eq_refl Hno)).
Defined.

(** ** The components of the display system *)

Section JsMapDelete.
Context {V : Type}.
Implicit Types (m : JsMap.t V) (k : string) (v : V).

Lemma JsMap_delete_absent k m : k ∉ JsMap.keys m → JsMap.delete k m = m.
Proof.
  unfold JsMap.keys. induction m as [|[k0 v0] m IH]; [done |].
  rewrite fmap_cons. cbn [fst JsMap.delete].
  intros [Hne Hout]%not_elem_of_cons.
  rewrite decide_False by congruence. by rewrite IH.
Qed.

Lemma JsMap_delete_set_new k v m :
  k ∉ JsMap.keys m → JsMap.delete k (JsMap.set k v m) = m.
Proof.
  unfold JsMap.keys. induction m as [|[k0 v0] m IH].
  - intros _. simpl. by rewrite decide_True.
  - rewrite fmap_cons. cbn [fst JsMap.set].
    intros [Hne Hout]%not_elem_of_cons.
    rewrite decide_False by congruence. cbn [JsMap.delete].
    rewrite decide_False by congruence. by rewrite IH.
Qed.

Lemma JsMap_keys_delete_sublist k m :
  JsMap.keys (JsMap.delete k m) `sublist_of` JsMap.keys m.
Proof.
  unfold JsMap.keys. induction m as [|[k0 v0] m IH]; [done |].
  cbn [JsMap.delete]. case_decide.
  - rewrite fmap_cons. by apply sublist_cons.
  - rewrite !fmap_cons. by apply sublist_skip.
Qed.

Lemma JsMap_delete_gone k m :
  NoDup (JsMap.keys m) → k ∉ JsMap.keys (JsMap.delete k m).
Proof.
  unfold JsMap.keys. induction m as [|[k0 v0] m IH]; [intros _; apply not_elem_of_nil |].
  rewrite fmap_cons. cbn [fst JsMap.delete]. intros [Hout Hnd]%NoDup_cons.
  destruct (decide (k0 = k)) as [->|Hne]; [done |].
  rewrite fmap_cons. apply not_elem_of_cons. split; [simpl; congruence | by apply IH].
Qed.

Lemma JsMap_length_delete k m : length (JsMap.delete k m) ≤ length m.
Proof.
  induction m as [|[k0 v0] m IH]; [done |]. simpl. case_decide; simpl; lia.
Qed.
End JsMapDelete.

Lemma history_delete k m : history_ok m → history_ok (JsMap.delete k m).
Proof.
  intros [Hk Hnd]. split.
  - unfold keyed in *. induction m as [|[k0 v0] m IH]; [done |].
    apply Forall_cons in Hk as [H0 Hk]. simpl. case_decide; [done |].
    constructor; [done |]. apply IH; [done |]. by apply NoDup_cons in Hnd as [_ ?].
  - eapply sublist_NoDup; [exact Hnd | apply JsMap_keys_delete_sublist].
Qed.

Lemma display_run_snoc ops op s :
  display_run (ops ++ [op]) s = (display_apply op (display_run ops s)).1.
Proof. unfold display_run. by rewrite foldl_app. Qed.

Lemma display_run_history url ops :
  history_ok (DisplaySystem.components (display_run ops (DisplaySystem.new url))).
Proof.
  induction ops as [|op ops IH] using rev_ind; [by split; constructor |].
  rewrite display_run_snoc. destruct op as [c|k]; simpl.
  - by apply history_set.
  - by apply history_delete.
Qed.

(** X12: the display system never shows an id twice, and never more
    components than arrived: this holds after any sequence of arrivals and
    removals. *)
Theorem display_has_one_entry_per_id :
  ∀ (url : string) (ops : list DisplayOp),
    let s := display_run ops (DisplaySystem.new url) in
    NoDup (Component.id <$> DisplaySystem.getComponents s)
    ∧ length (DisplaySystem.getComponents s) ≤ length (List.filter is_received ops).
Proof.
  intros url ops. simpl. split.
  - apply history_listing_NoDup, display_run_history.
  - unfold DisplaySystem.getComponents, JsMap.values. rewrite length_fmap.
    induction ops as [|op ops IH] using rev_ind; [done |].
    rewrite display_run_snoc, List.filter_app, length_app.
    destruct op as [c|k]; simpl.
    + assert (∀ k v (m0 : JsMap.t Component.t),
                length (JsMap.set k v m0) ≤ S (length m0)) as Hset.
      { intros k v m0. induction m0 as [|[k0 v0] m0 IHm]; simpl; [lia |].
        case_decide; simpl; lia. }
      specialize (Hset (Component.id c) c
                    (DisplaySystem.components (display_run ops (DisplaySystem.new url)))).
      lia.
    + pose proof (JsMap_length_delete k
                    (DisplaySystem.components (display_run ops (DisplaySystem.new url)))).
      lia.
Qed.

(** X13: removing a component.  In any state the display system reaches,
    after [removeComponent(id)] no component with that id is shown,
    whichever component was stored under it last; removing an id that is
    not shown changes nothing, yet notifies; and a component that arrives
    under a new id and is then removed leaves the components as they were
    before it came. *)
Theorem remove_component_round_trip :
  ∀ (url : string) (ops : list DisplayOp),
    let s := display_run ops (DisplaySystem.new url) in
    (∀ k, k ∉ (Component.id
                 <$> DisplaySystem.getComponents (DisplaySystem.removeComponent k s).1))
    ∧ (∀ k, k ∉ (Component.id <$> DisplaySystem.getComponents s) →
            DisplaySystem.removeComponent k s
            = (s, [DisplaySystem.notify "components_changed"]))
    ∧ (∀ c, Component.id c ∉ (Component.id <$> DisplaySystem.getComponents s) →
            (DisplaySystem.removeComponent (Component.id c)
               (DisplaySystem.handleComponentFromDaemon c s).1).1 = s).
Proof.
  intros url ops. simpl.
  pose proof (display_run_history url ops) as Hok.
  set (s := display_run ops (DisplaySystem.new url)) in *.
  assert (Hids : Component.id <$> DisplaySystem.getComponents s
                 = JsMap.keys (DisplaySystem.components s)).
  { unfold DisplaySystem.getComponents. apply keyed_ids, Hok. }
  split_and!.
  - intros k. unfold DisplaySystem.getComponents. simpl.
    rewrite (keyed_ids _ (proj1 (history_delete k _ Hok))).
    apply JsMap_delete_gone, Hok.
  - intros k Hout. rewrite Hids in Hout. unfold DisplaySystem.removeComponent.
    rewrite JsMap_delete_absent by done. by destruct s.
  - intros c Hout. rewrite Hids in Hout. simpl.
    rewrite JsMap_delete_set_new by done. by destruct s.
Qed.

(** The display system shows the card; the notification is not shown. *)
Lemma remove_component_round_trip_witness :
  let s := display_run [received card] (DisplaySystem.new renderer_url) in
  (Component.id notification ∉ (Component.id <$> DisplaySystem.getComponents s))
  ∧ DisplaySystem.removeComponent (Component.id notification) s
    = (s, [DisplaySystem.notify "components_changed"])
  ∧ (DisplaySystem.removeComponent (Component.id notification)
       (DisplaySystem.handleComponentFromDaemon notification s).1).1 = s.
Proof.
  intros s.
  assert (Hout : Component.id notification
                 ∉ (Component.id <$> DisplaySystem.getComponents s)).
  { vm_compute. intros Hin. apply list_elem_of_singleton in Hin. discriminate. }
  destruct (remove_component_round_trip renderer_url [received card])
    as (_ & Habsent & Hround).
  split; [exact Hout |]. split.
  - exact (Habsent (Component.id notification) Hout).
  - exact (Hround notification Hout).
Defined.

(** ** The display system wired to its client *)

Lemma settle_all_app es1 es2 st :
  Page.settle_all (es1 ++ es2) st
  = let '(st1, o1) := Page.settle_all es1 st in
    let '(st2, o2) := Page.settle_all es2 st1 in
    (st2, o1 ++ o2).
Proof.
  revert st. induction es1 as [|e es1 IH]; intros st; simpl.
  - by destruct (Page.settle_all es2 st).
  - destruct (Page.settle e st) as [st1 o1]. rewrite IH.
    destruct (Page.settle_all es1 st1) as [st2 o2].
    destruct (Page.settle_all es2 st2) as [st3 o3]. by rewrite app_assoc.
Qed.

Lemma settle_send message w st :
  Page.settle_all (Renderer.send message w).2 st
  = (st, DisplaySystem.of_client <$> (Renderer.send message w).2).
Proof.
  rewrite send_spec. simpl. destruct (Renderer.ws_is_open w); [|done].
  by destruct (Renderer.ws (Renderer.client w)).
Qed.

Lemma notified_of_client es : Page.notified (DisplaySystem.of_client <$> es) = [].
Proof. induction es as [|e es IH]; [done |]. exact IH. Qed.

Lemma notified_app es es' :
  Page.notified (es ++ es') = Page.notified es ++ Page.notified es'.
Proof. apply omap_app. Qed.

Lemma filter_absent (sock : nat) (l : list nat) :
  sock ∉ l → filter (fun k => k ≠ sock) l = l.
Proof.
  induction l as [|x l IH]; [done |]. intros [Hne Hout]%not_elem_of_cons.
  rewrite filter_cons_True by congruence. by rewrite IH.
Qed.

(** One event of the sockets, seen from the display system. *)
Lemma page_step ev st :
  from_environment ev = true →
  let st' := (Page.handle (Page.client_event ev) st).1 in
  let es := (Page.handle (Page.client_event ev) st).2 in
  Renderer.subscriptions (Renderer.client (Page.world st'))
  = (if Page.settles ev st is Some true
     then JsMap.set "renderer-subscription" DisplaySystem.handler
            (Renderer.subscriptions (Renderer.client (Page.world st)))
     else Renderer.subscriptions (Renderer.client (Page.world st)))
  ∧ Page.awaited st'
    = match ev with
      | Renderer.ws_open sock | Renderer.ws_error sock =>
          filter (fun k => k ≠ sock) (Page.awaited st)
      | _ => Page.awaited st
      end
  ∧ DisplaySystem.components (Page.system st')
    = match Page.delivered ev st with
      | Some c => JsMap.set (Component.id c) c
                    (DisplaySystem.components (Page.system st))
      | None => DisplaySystem.components (Page.system st)
      end
  ∧ DisplaySystem.subscriptionCleanup (Page.system st')
    = (if Page.settles ev st is Some true then true
       else DisplaySystem.subscriptionCleanup (Page.system st))
  ∧ Page.notified es
    = match Page.settles ev st, Page.delivered ev st with
      | Some true, _ => ["connected"]
      | Some false, _ => ["connection_error"]
      | None, Some _ => ["components_changed"]
      | None, None => []
      end.
Proof.
  intros Henv. destruct ev as [made| |cb| |sock|sock msg|sock|sock|made]; try done;
    try (by destruct made).
  - (* a socket opens *)
    simpl. unfold Renderer.onopen.
    match goal with |- context [Renderer.send ?m ?w1] =>
      pose proof (settle_send m w1) as Hsend; pose proof (send_world m w1) as Hw;
      destruct (Renderer.send m w1) as [w2 e2]
    end.
    simpl in Hsend, Hw. subst w2. rewrite settle_all_app, Hsend. simpl.
    destruct (decide (sock ∈ Page.awaited st)) as [Hin|Hout]; simpl.
    + rewrite notified_app, notified_of_client. done.
    + rewrite app_nil_r, notified_of_client, filter_absent by done. done.
  - (* a message *)
    simpl. unfold Renderer.handleMessage, Renderer.startSubscription.
    destruct (decide (Message.type msg = "connection_ack")) as [Hack|Hn].
    + rewrite decide_False by (rewrite Hack; discriminate).
      match goal with |- context [Renderer.send ?m ?w1] =>
        pose proof (settle_send m w1 (Page.with_world w1 st)) as Hsend;
        pose proof (send_world m w1) as Hw;
        destruct (Renderer.send m w1) as [w2 e2]
      end.
      simpl in Hsend, Hw. subst w2. rewrite Hsend. simpl.
      rewrite notified_of_client. by destruct st as [[] ?].
    + destruct (decide (Message.type msg = "data")) as [Hd|Hnd].
      * destruct (Message.id msg
                    ≫= (fun k => JsMap.get k
                           (Renderer.subscriptions (Renderer.client (Page.world st)))))
          as [cb|]; [destruct (Message.payload_rendererUpdate msg) as [c|] |];
          simpl; try done.
        destruct (decide (cb = DisplaySystem.handler)); simpl; [|done].
        split_and!; try done. by repeat case_match.
      * destruct st as [[w comps cleanup] aw]. simpl in *.
        destruct (decide (Message.type msg = "error"));
          [|destruct (decide (Message.type msg = "complete"))]; done.
  - (* a socket closes *)
    simpl. unfold Renderer.onclose, Renderer.attemptReconnect. simpl.
    case_decide; simpl; done.
  - (* a socket fails *)
    simpl. destruct (decide (sock ∈ Page.awaited st)) as [Hin|Hout]; simpl.
    + by destruct st as [[] ?].
    + rewrite filter_absent by done. by destruct st as [[] ?].
Qed.

Lemma Page_run_snoc evs ev st :
  (Page.run (evs ++ [ev]) st).1 = (Page.handle ev (Page.run evs st).1).1
  ∧ (Page.run (evs ++ [ev]) st).2
    = (Page.run evs st).2 ++ (Page.handle ev (Page.run evs st).1).2.
Proof.
  revert st. induction evs as [|ev' evs IH]; intros st; simpl.
  - destruct (Page.handle ev st) as [st2 e2]. by rewrite app_nil_r.
  - destruct (Page.handle ev' st) as [st1 e1]. destruct (IH st1) as [IH1 IH2].
    destruct (Page.run (evs ++ [ev]) st1) as [st3 e3].
    destruct (Page.run evs st1) as [st2 e2]. simpl in *.
    rewrite IH1, IH2. by rewrite app_assoc.
Qed.

Lemma from_sockets_inv ev :
  Page.from_sockets ev = true →
  ∃ ev', ev = Page.client_event ev' ∧ from_environment ev' = true.
Proof. destruct ev as [| |ev'|]; try done. intros H. by exists ev'. Qed.

Lemma live_step ev st :
  Page.from_sockets ev = true → Page.live st →
  Page.live (Page.handle ev st).1.
Proof.
  intros (ev' & -> & Henv)%from_sockets_inv Hlive. unfold Page.live in *.
  destruct (page_step ev' st Henv) as (-> & _).
  destruct (Page.settles ev' st) as [[]|]; [|done..].
  rewrite JsMap_get_set. by rewrite decide_True.
Qed.

Lemma live_run evs : ∀ st,
  Forall (fun ev => Page.from_sockets ev = true) evs → Page.live st →
  Page.live (Page.run evs st).1.
Proof.
  induction evs as [|ev evs IH] using rev_ind; intros st Hall Hlive; [done |].
  apply Forall_app in Hall as [Hall Hev]. apply Forall_inv in Hev.
  destruct (Page_run_snoc evs ev st) as [-> _].
  apply live_step; [exact Hev |]. by apply IH.
Qed.

(** What the client transmits passes through the display system as it
    is. *)
Lemma transmitted_settle_all es : ∀ st,
  Page.transmitted (Page.settle_all es st).2 = Renderer.sent es.
Proof.
  induction es as [|e es IH]; intros st; [done |].
  cbn [Page.settle_all].
  destruct (Page.settle e st) as [st1 out1] eqn:Hset.
  specialize (IH st1). destruct (Page.settle_all es st1) as [st2 out2].
  cbn [snd] in *. unfold Page.transmitted in *.
  rewrite omap_app, Renderer_sent_app, IH.
  assert (Renderer.sent
            (omap (fun e => match e with
                            | DisplaySystem.of_client e => Some e
                            | _ => None
                            end) out1)
          = Renderer.sent [e]) as ->; [|by destruct e].
  destruct e; simpl in Hset; repeat case_decide; simplify_eq; try done.
  by repeat case_match.
Qed.

Lemma page_transmitted ev st :
  Page.transmitted (Page.handle (Page.client_event ev) st).2
  = Renderer.sent (Renderer.handle ev (Page.world st)).2.
Proof.
  cbn [Page.handle].
  destruct (Renderer.handle ev (Page.world st)) as [w es].
  apply transmitted_settle_all.
Qed.

(** The promises the display system awaits, after an event. *)
Lemma awaited_step ev st :
  Page.owned ev = true →
  Page.awaited (Page.handle ev st).1
  = match ev with
    | Page.connect_called Renderer.constructed =>
        Page.awaited st ++ [length (Renderer.sockets (Page.world st))]
    | Page.client_event (Renderer.ws_open sock)
    | Page.client_event (Renderer.ws_error sock) =>
        filter (fun k => k ≠ sock) (Page.awaited st)
    | _ => Page.awaited st
    end.
Proof.
  intros Hev. destruct ev as [made| |ev|k].
  - destruct st as [[w comps cleanup] aw]. by destruct made.
  - simpl. by destruct (DisplaySystem.disconnect (Page.system st)).
  - destruct (page_step ev st Hev) as (_ & -> & _). by destruct ev.
  - done.
Qed.

(** The events that settle the promise of the [connect()] that made
    [sock]: the socket opens, or it fails. *)
Lemma awaited_run sock evs : ∀ st,
  Forall (fun ev => Page.owned ev = true) evs →
  Forall (fun ev => ev ≠ Page.client_event (Renderer.ws_open sock)
                    ∧ ev ≠ Page.client_event (Renderer.ws_error sock)) evs →
  sock ∈ Page.awaited st →
  sock ∈ Page.awaited (Page.run evs st).1.
Proof.
  induction evs as [|ev evs IH] using rev_ind; intros st Hown Hno Hin; [done |].
  apply Forall_app in Hown as [Hown Hev]. apply Forall_inv in Hev.
  apply Forall_app in Hno as [Hno [Hopen Herr]%Forall_inv].
  destruct (Page_run_snoc evs ev st) as [-> _].
  rewrite awaited_step by exact Hev.
  specialize (IH st Hown Hno Hin).
  destruct ev as [[]| |[]|]; try done.
  - apply elem_of_app. by left.
  - apply list_elem_of_filter. split; [|done]. intros ->. by apply Hopen.
  - apply list_elem_of_filter. split; [|done]. intros ->. by apply Herr.
Qed.

(** X14: how [connect()] of the display system ends.  When
    [new WebSocket] throws, [connect()] notifies "connection_error" at once
    and leaves everything else as it was.  Otherwise it creates a socket,
    which becomes [ws], notifies nothing and waits; it keeps waiting,
    whatever else happens, until that socket opens or fails.  When the
    socket opens, [connect()] subscribes its callback, holds the function
    to unsubscribe and notifies "connected"; [connection_init] is
    transmitted then exactly if [ws] is an open socket at that moment, which
    it is not when a reconnection has replaced [ws] in the meantime.  When
    the socket fails first, [connect()] notifies "connection_error",
    subscribes nothing, and nothing is transmitted. *)
Theorem connect_ends_with_its_socket :
  ∀ st : Page.State,
    ((Page.handle (Page.connect_called Renderer.threw) st).1 = st
     ∧ Page.notified (Page.handle (Page.connect_called Renderer.threw) st).2
       = ["connection_error"]
     ∧ Page.transmitted (Page.handle (Page.connect_called Renderer.threw) st).2 = [])
    ∧ (let sock := length (Renderer.sockets (Page.world st)) in
       let '(st1, es) := Page.handle (Page.connect_called Renderer.constructed) st in
       Page.awaited st1 = Page.awaited st ++ [sock]
       ∧ Renderer.ws (Renderer.client (Page.world st1)) = Some sock
       ∧ Renderer.sockets (Page.world st1)
         = Renderer.sockets (Page.world st) ++ [Renderer.CONNECTING]
       ∧ Page.notified es = []
       ∧ Page.transmitted es = [])
    ∧ ∀ sock : nat,
        sock ∈ Page.awaited st →
        (∀ evs : list Page.Event,
           Forall (fun ev => Page.owned ev = true) evs →
           Forall (fun ev => ev ≠ Page.client_event (Renderer.ws_open sock)
                             ∧ ev ≠ Page.client_event (Renderer.ws_error sock)) evs →
           sock ∈ Page.awaited (Page.run evs st).1)
        ∧ (let '(st2, es) :=
             Page.handle (Page.client_event (Renderer.ws_open sock)) st in
           Page.notified es = ["connected"]
           ∧ Page.live st2
           ∧ DisplaySystem.subscriptionCleanup (Page.system st2) = true
           ∧ (sock ∉ Page.awaited st2)
           ∧ Page.transmitted es
             = (if Renderer.ws_is_open
                     (Renderer.set_state sock Renderer.OPEN (Page.world st))
                then [connection_init] else []))
        ∧ (let '(st2, es) :=
             Page.handle (Page.client_event (Renderer.ws_error sock)) st in
           Page.notified es = ["connection_error"]
           ∧ Page.transmitted es = []
           ∧ Renderer.subscriptions (Renderer.client (Page.world st2))
             = Renderer.subscriptions (Renderer.client (Page.world st))
           ∧ DisplaySystem.subscriptionCleanup (Page.system st2)
             = DisplaySystem.subscriptionCleanup (Page.system st)
           ∧ sock ∉ Page.awaited st2).
Proof.
  intros st. split_and!.
  - by destruct st as [[w comps cleanup] aw].
  - by destruct st as [[w comps cleanup] aw].
  - by destruct st as [[w comps cleanup] aw].
  - by destruct st as [[w comps cleanup] aw].
  - intros sock Hin.
    assert (Hgone : sock ∉ filter (fun k => k ≠ sock) (Page.awaited st)).
    { intros Hl. apply list_elem_of_filter in Hl as [Hne _]. done. }
    split_and!.
    + intros evs Hown Hno. by apply awaited_run.
    + pose proof (page_step (Renderer.ws_open sock) st eq_refl)
        as (Hsubs & Haw & _ & Hclean & Hnot).
      pose proof (page_transmitted (Renderer.ws_open sock) st) as Htr.
      destruct (Page.handle (Page.client_event (Renderer.ws_open sock)) st)
        as [st2 es].
      cbn [fst snd] in *. unfold Page.settles in *.
      rewrite decide_True in Hsubs, Hclean, Hnot by done.
      split_and!; try done.
      * unfold Page.live. rewrite Hsubs, JsMap_get_set. by rewrite decide_True.
      * by rewrite Haw.
      * rewrite Htr. cbn [Renderer.handle]. unfold Renderer.onopen.
        match goal with |- context [Renderer.send ?m ?w1] =>
          pose proof (sent_send m w1) as Hs; destruct (Renderer.send m w1) as [w2 e2]
        end.
        cbn [snd] in *. rewrite Renderer_sent_app, Hs, app_nil_r.
        by rewrite ws_is_open_with_client.
    + pose proof (page_step (Renderer.ws_error sock) st eq_refl)
        as (Hsubs & Haw & _ & Hclean & Hnot).
      pose proof (page_transmitted (Renderer.ws_error sock) st) as Htr.
      destruct (Page.handle (Page.client_event (Renderer.ws_error sock)) st)
        as [st2 es].
      cbn [fst snd] in *. unfold Page.settles in *.
      rewrite decide_True in Hsubs, Hclean, Hnot by done.
      split_and!; try done. by rewrite Haw.
Qed.

(** A page whose first connection failed calls [connect()] again; before
    the new socket opens, the reconnection timer of the first one runs and
    replaces [ws].  When the awaited socket opens, "connected" is notified
    and nothing is transmitted. *)
Lemma connect_ends_with_its_socket_witness :
  let st := (Page.run [Page.connect_called Renderer.constructed;
                       Page.client_event (Renderer.ws_error 0);
                       Page.client_event (Renderer.ws_closed 0);
                       Page.connect_called Renderer.constructed;
                       Page.client_event (Renderer.timer_fired Renderer.constructed)]
               (Page.new renderer_url)).1 in
  1 ∈ Page.awaited st
  ∧ Renderer.ws (Renderer.client (Page.world st)) = Some 2
  ∧ Page.notified (Page.handle (Page.client_event (Renderer.ws_open 1)) st).2
    = ["connected"]
  ∧ Page.transmitted (Page.handle (Page.client_event (Renderer.ws_open 1)) st).2
    = [].
Proof.
  intros st.
  assert (Hin : 1 ∈ Page.awaited st) by (vm_compute; constructor).
  split; [exact Hin |]. split; [reflexivity |].
  destruct (connect_ends_with_its_socket st) as (_ & _ & H).
  destruct (H 1 Hin) as (_ & Hopen & _).
  destruct (Page.handle (Page.client_event (Renderer.ws_open 1)) st) as [st2 es].
  destruct Hopen as (Hn & _ & _ & _ & Ht). split; [exact Hn | exact Ht].
Defined.

(** X15: once the display system listens, it keeps listening through
    whatever the sockets and the reconnection timer do -- losses,
    reconnections, other messages -- and a data message for the
    subscription that carries a component then stores that component under
    its id and notifies "components_changed". *)
Theorem components_reach_the_display_system
    (evs : list Page.Event) (st : Page.State)
    (sock : nat) (message : Message.t) (c : Component.t) :
  Page.live st →
  Forall (fun ev => Page.from_sockets ev = true) evs →
  Message.type message = "data" →
  Message.id message = Some "renderer-subscription" →
  Message.payload_rendererUpdate message = Some c →
  let st1 := (Page.run evs st).1 in
  let '(st2, es) :=
    Page.handle (Page.client_event (Renderer.ws_message sock message)) st1 in
  JsMap.get (Component.id c) (DisplaySystem.components (Page.system st2)) = Some c
  ∧ Page.notified es = ["components_changed"]
  ∧ Page.live st2.
Proof.
  intros Hlive Hall Ht Hid Hc st1.
  assert (Hlive1 : Page.live st1) by (by apply live_run).
  assert (Hd : Page.delivered (Renderer.ws_message sock message) st1 = Some c).
  { unfold Page.delivered. rewrite Ht, Hid, Hc. simpl.
    unfold Page.live in Hlive1. rewrite Hlive1. by rewrite decide_True. }
  pose proof (page_step (Renderer.ws_message sock message) st1 eq_refl)
    as (_ & _ & Hcomps & _ & Hnot).
  pose proof (live_step (Page.client_event (Renderer.ws_message sock message))
                st1 eq_refl Hlive1) as Hlive2.
  destruct (Page.handle (Page.client_event (Renderer.ws_message sock message)) st1)
    as [st2 es]. simpl in *.
  rewrite Hd in Hcomps, Hnot. split_and!; [|done..].
  rewrite Hcomps, JsMap_get_set. by rewrite decide_True.
Qed.

(** The connected display system loses the daemon, reconnects, and is sent
    the card on the new socket. *)
Lemma components_reach_the_display_system_witness :
  let st := (Page.run [Page.connect_called Renderer.constructed;
                       Page.client_event (Renderer.ws_open 0);
                       Page.client_event (Renderer.ws_message 0 connection_ack)]
               (Page.new renderer_url)).1 in
  let evs := Page.client_event
               <$> [Renderer.ws_closed 0; Renderer.timer_fired Renderer.constructed;
                    Renderer.ws_open 1; Renderer.ws_message 1 connection_ack] in
  Page.live st
  ∧ Forall (fun ev => Page.from_sockets ev = true) evs
  ∧ DisplaySystem.getComponents
      (Page.system
         (Page.handle
            (Page.client_event (Renderer.ws_message 1 (renderer_data_of card)))
            (Page.run evs st).1).1)
    = [card]
  ∧ JsMap.get (Component.id card)
      (DisplaySystem.components
         (Page.system
            (Page.handle
               (Page.client_event (Renderer.ws_message 1 (renderer_data_of card)))
               (Page.run evs st).1).1))
    = Some card.
Proof.
  intros st evs.
  assert (Hall : Forall (fun ev => Page.from_sockets ev = true) evs)
    by (repeat constructor).
  split; [reflexivity |]. split; [exact Hall |]. split; [reflexivity |].
  pose proof (components_reach_the_display_system evs st 1 (renderer_data_of card)
                card eq_refl Hall eq_refl eq_refl eq_refl) as H.
  cbv zeta in H.
  destruct (Page.handle
              (Page.client_event (Renderer.ws_message 1 (renderer_data_of card)))
              (Page.run evs st).1) as [st2 es].
  exact (proj1 H).
Defined.

Lemma quiet_step ev st :
  Page.from_sockets ev = true → Page.awaited st = [] →
  Page.awaited (Page.handle ev st).1 = []
  ∧ ∀ t, t ∈ Page.notified (Page.handle ev st).2 → t = "components_changed".
Proof.
  intros (ev' & -> & Henv)%from_sockets_inv Haw.
  destruct (page_step ev' st Henv) as (_ & Haw' & _ & _ & Hnot).
  assert (Page.settles ev' st = None) as Hs.
  { unfold Page.settles. rewrite Haw. by destruct ev'. }
  rewrite Hs in Hnot. split.
  - rewrite Haw', Haw. by destruct ev'.
  - rewrite Hnot. intros t. destruct (Page.delivered ev' st).
    + by intros ->%list_elem_of_singleton.
    + by intros ?%elem_of_nil.
Qed.

(** X16: the sockets never tell the owner about the connection.  Once no
    [connect()] of the display system is pending, nothing that the sockets
    or the reconnection timer do -- a loss, a failed or a successful
    reconnection -- notifies "connected", "disconnected" or
    "connection_error": the only notifications are "components_changed".  A
    closing socket in particular notifies nothing and leaves the components
    and the subscription as they are. *)
Theorem sockets_notify_components_only :
  (∀ (evs : list Page.Event) (st : Page.State),
     Page.awaited st = [] →
     Forall (fun ev => Page.from_sockets ev = true) evs →
     ∀ t, t ∈ Page.notified (Page.run evs st).2 → t = "components_changed")
  ∧ (∀ (st : Page.State) (sock : nat),
       let '(st', es) := Page.handle (Page.client_event (Renderer.ws_closed sock)) st in
       Page.notified es = []
       ∧ DisplaySystem.components (Page.system st')
         = DisplaySystem.components (Page.system st)
       ∧ Renderer.subscriptions (Renderer.client (Page.world st'))
         = Renderer.subscriptions (Renderer.client (Page.world st))).
Proof.
  split.
  - intros evs. induction evs as [|ev evs IH] using rev_ind; intros st Haw Hall t.
    + by intros ?%elem_of_nil.
    + apply Forall_app in Hall as [Hall Hev]. apply Forall_inv in Hev.
      destruct (Page_run_snoc evs ev st) as [_ ->]. rewrite notified_app.
      intros [Hin|Hin]%elem_of_app; [by eapply IH |].
      assert (Page.awaited (Page.run evs st).1 = []) as Haw1.
      { clear IH Hin Hev. induction evs as [|e evs IHe] using rev_ind; [done |].
        apply Forall_app in Hall as [Hall He]. apply Forall_inv in He.
        destruct (Page_run_snoc evs e st) as [-> _].
        by apply quiet_step; [|apply IHe]. }
      by apply (quiet_step ev _ Hev Haw1).
  - intros st sock.
    pose proof (page_step (Renderer.ws_closed sock) st eq_refl)
      as (Hsubs & _ & Hcomps & _ & Hnot).
    destruct (Page.handle (Page.client_event (Renderer.ws_closed sock)) st)
      as [st' es]. simpl in *. done.
Qed.

(** The connected display system: its socket closes, reconnections fail
    and succeed, a card arrives. *)
Lemma sockets_notify_components_only_witness :
  let st := (Page.run [Page.connect_called Renderer.constructed;
                       Page.client_event (Renderer.ws_open 0);
                       Page.client_event (Renderer.ws_message 0 connection_ack)]
               (Page.new renderer_url)).1 in
  Page.awaited st = []
  ∧ Forall (fun ev => Page.from_sockets ev = true) reconnection_succeeds
  ∧ Page.notified (Page.run reconnection_succeeds st).2 = ["components_changed"]
  ∧ "components_changed" = "components_changed".
Proof.
  intros st.
  assert (Hall : Forall (fun ev => Page.from_sockets ev = true) reconnection_succeeds)
    by (repeat constructor).
  assert (Hin : "components_changed"
                ∈ Page.notified (Page.run reconnection_succeeds st).2)
    by (vm_compute; constructor).
  split; [reflexivity |]. split; [exact Hall |]. split; [reflexivity |].
  exact (proj1 sockets_notify_components_only reconnection_succeeds st eq_refl Hall
           "components_changed" Hin).
Defined.

Lemma deaf_step ev st :
  Page.from_sockets ev = true → Page.deaf st →
  Page.deaf (Page.handle ev st).1
  ∧ DisplaySystem.components (Page.system (Page.handle ev st).1)
    = DisplaySystem.components (Page.system st)
  ∧ DisplaySystem.subscriptionCleanup (Page.system (Page.handle ev st).1)
    = DisplaySystem.subscriptionCleanup (Page.system st)
  ∧ Page.notified (Page.handle ev st).2 = [].
Proof.
  intros (ev' & -> & Henv)%from_sockets_inv [Hsubs Haw].
  destruct (page_step ev' st Henv) as (Hs' & Haw' & Hcomps & Hclean & Hnot).
  assert (Page.settles ev' st = None) as Hs.
  { unfold Page.settles. rewrite Haw. by destruct ev'. }
  assert (Page.delivered ev' st = None) as Hd.
  { unfold Page.delivered. rewrite Hsubs. destruct ev'; try done.
    case_decide; [|done]. by destruct (Message.id message). }
  rewrite Hs in *. rewrite Hd in *. split_and!; try done.
  split; [congruence |]. rewrite Haw', Haw. by destruct ev'.
Qed.

Lemma deaf_run evs st :
  Page.deaf st →
  Forall (fun ev => Page.from_sockets ev = true) evs →
  Page.deaf (Page.run evs st).1
  ∧ DisplaySystem.components (Page.system (Page.run evs st).1)
    = DisplaySystem.components (Page.system st)
  ∧ DisplaySystem.subscriptionCleanup (Page.system (Page.run evs st).1)
    = DisplaySystem.subscriptionCleanup (Page.system st)
  ∧ Page.notified (Page.run evs st).2 = [].
Proof.
  intros Hdeaf Hall.
  induction evs as [|ev evs IH] using rev_ind; [done |].
  apply Forall_app in Hall as [Hall Hev]. apply Forall_inv in Hev.
  destruct (IH Hall) as (Hd & Hc & Hcl & Hn).
  destruct (Page_run_snoc evs ev st) as [-> ->].
  destruct (deaf_step ev _ Hev Hd) as (Hd' & Hc' & Hcl' & Hn').
  rewrite notified_app, Hn, Hn', Hc', Hcl'. done.
Qed.

(** X17: a display system that does not listen stays deaf.  When no
    callback is subscribed and no [connect()] is pending -- as after a first
    connection that failed before it opened -- nothing the sockets and the
    reconnection timer do changes that: the client may reconnect, be
    acknowledged and be sent components, yet no component is stored, none
    is subscribed for, and the owner is notified of nothing. *)
Theorem unsubscribed_display_stays_deaf
    (evs : list Page.Event) (st : Page.State) :
  Page.deaf st →
  Forall (fun ev => Page.from_sockets ev = true) evs →
  let '(st', es) := Page.run evs st in
  Page.deaf st'
  ∧ DisplaySystem.components (Page.system st')
    = DisplaySystem.components (Page.system st)
  ∧ DisplaySystem.subscriptionCleanup (Page.system st')
    = DisplaySystem.subscriptionCleanup (Page.system st)
  ∧ Page.notified es = [].
Proof.
  intros Hdeaf Hall. pose proof (deaf_run evs st Hdeaf Hall) as H.
  by destruct (Page.run evs st).
Qed.

(** The first connection fails; the reconnection succeeds, the start goes
    out, the card arrives, and the display system shows nothing. *)
Lemma unsubscribed_display_stays_deaf_witness :
  Page.deaf page_after_failed_connect
  ∧ Forall (fun ev => Page.from_sockets ev = true) reconnection_succeeds
  ∧ Page.transmitted (Page.run reconnection_succeeds page_after_failed_connect).2
    = [connection_init; start "renderer-subscription" Renderer.renderer_query]
  ∧ DisplaySystem.getComponents
      (Page.system (Page.run reconnection_succeeds page_after_failed_connect).1)
    = [].
Proof.
  assert (Hdeaf : Page.deaf page_after_failed_connect) by (by split).
  assert (Hall : Forall (fun ev => Page.from_sockets ev = true) reconnection_succeeds)
    by (repeat constructor).
  split; [exact Hdeaf |]. split; [exact Hall |]. split; [reflexivity |].
  pose proof (unsubscribed_display_stays_deaf reconnection_succeeds
                page_after_failed_connect Hdeaf Hall) as H.
  destruct (Page.run reconnection_succeeds page_after_failed_connect) as [st' es].
  destruct H as (_ & Hc & _). unfold DisplaySystem.getComponents.
  simpl. by rewrite Hc.
Defined.

(** [disconnect()] of the display system, on the client's subscriptions and
    sockets. *)
Lemma display_disconnect_client s :
  let w := DisplaySystem.graphqlClient s in
  let w' := DisplaySystem.graphqlClient (DisplaySystem.disconnect s).1 in
  Renderer.subscriptions (Renderer.client w')
  = (if DisplaySystem.subscriptionCleanup s
     then JsMap.delete "renderer-subscription" (Renderer.subscriptions (Renderer.client w))
     else Renderer.subscriptions (Renderer.client w))
  ∧ Renderer.ws_is_open w' = false
  ∧ (∀ k, Renderer.ws (Renderer.client w) ≠ Some k →
          Renderer.sockets w' !! k = Renderer.sockets w !! k)
  ∧ DisplaySystem.components (DisplaySystem.disconnect s).1 = DisplaySystem.components s
  ∧ DisplaySystem.subscriptionCleanup (DisplaySystem.disconnect s).1
    = DisplaySystem.subscriptionCleanup s
  ∧ Page.notified (DisplaySystem.disconnect s).2 = ["disconnected"].
Proof.
  destruct s as [w comps cleanup]. cbv zeta. unfold DisplaySystem.disconnect.
  cbn [DisplaySystem.graphqlClient DisplaySystem.components
       DisplaySystem.subscriptionCleanup].
  set (r := if cleanup then Renderer.unsubscribe w else (w, [])).
  assert (Renderer.subscriptions (Renderer.client r.1)
          = (if cleanup
             then JsMap.delete "renderer-subscription"
                    (Renderer.subscriptions (Renderer.client w))
             else Renderer.subscriptions (Renderer.client w))
          ∧ Renderer.sockets r.1 = Renderer.sockets w
          ∧ Renderer.ws (Renderer.client r.1) = Renderer.ws (Renderer.client w))
    as (Hsubs & Hss & Hws).
  { unfold r. destruct cleanup; [|done]. unfold Renderer.unsubscribe.
    destruct (Renderer.connected (Renderer.client w)); [|done].
    by rewrite send_world. }
  destruct r as [w1 e1]. cbn [fst] in Hsubs, Hss, Hws.
  unfold Renderer.disconnect, Renderer.ws_is_open.
  destruct (Renderer.ws (Renderer.client w1)) as [sock|] eqn:Hsock;
    cbn [fst snd DisplaySystem.graphqlClient DisplaySystem.components
         DisplaySystem.subscriptionCleanup Renderer.client Renderer.sockets];
    rewrite notified_app, notified_of_client; rewrite ?Hsock;
    split_and!; try done.
  - apply bool_decide_eq_false_2, closing_not_open.
  - intros k Hk. rewrite <- Hss. apply closing_other. intros ->. by apply Hk.
  - intros k _. by rewrite Hss.
Qed.

(** The display system subscribes at most its own callback, and holds the
    function to unsubscribe whenever it is subscribed. *)
Lemma page_subscribed_step ev st :
  Page.owned ev = true →
  (Renderer.subscriptions (Renderer.client (Page.world st)) = []
   ∨ Renderer.subscriptions (Renderer.client (Page.world st))
     = [("renderer-subscription", DisplaySystem.handler)]
     ∧ DisplaySystem.subscriptionCleanup (Page.system st) = true) →
  let st' := (Page.handle ev st).1 in
  Renderer.subscriptions (Renderer.client (Page.world st')) = []
  ∨ Renderer.subscriptions (Renderer.client (Page.world st'))
    = [("renderer-subscription", DisplaySystem.handler)]
    ∧ DisplaySystem.subscriptionCleanup (Page.system st') = true.
Proof.
  intros Hev Hinv. destruct ev as [made| |ev|k]; cbv zeta.
  - destruct st as [[w comps cleanup] aw]. destruct made; exact Hinv.
  - unfold Page.world in *. simpl.
    destruct (display_disconnect_client (Page.system st)) as (Hs & _).
    destruct (DisplaySystem.disconnect (Page.system st)) as [s' es]. simpl in *.
    left. rewrite Hs.
    destruct (DisplaySystem.subscriptionCleanup (Page.system st));
      destruct Hinv as [->|[-> ?]]; done.
  - destruct (page_step ev st Hev) as (-> & _ & _ & -> & _).
    destruct (Page.settles ev st) as [[]|]; [|done..].
    right. split; [|done]. by destruct Hinv as [->|[-> _]].
  - destruct st as [[w comps cleanup] aw]. exact Hinv.
Qed.

Lemma page_subscribed url evs :
  Forall (fun ev => Page.owned ev = true) evs →
  let st := (Page.run evs (Page.new url)).1 in
  Renderer.subscriptions (Renderer.client (Page.world st)) = []
  ∨ Renderer.subscriptions (Renderer.client (Page.world st))
    = [("renderer-subscription", DisplaySystem.handler)]
    ∧ DisplaySystem.subscriptionCleanup (Page.system st) = true.
Proof.
  intros Hall. cbv zeta.
  induction evs as [|ev evs IH] using rev_ind; [by left |].
  apply Forall_app in Hall as [Hall Hev]. apply Forall_inv in Hev.
  destruct (Page_run_snoc evs ev (Page.new url)) as [-> _].
  apply page_subscribed_step; [exact Hev | by apply IH].
Qed.

(** X18: [disconnect()] of the display system ends the display of new
    components, and keeps the ones shown.  In any state a page reaches
    through its display system, with no [connect()] pending,
    [disconnect()] notifies "disconnected"; after it [ws], the socket the
    client uses, is not open, while every other socket keeps its state -- a
    socket that an earlier [connect()] left open stays open -- no callback
    is subscribed in the client, and the components are kept.  Whatever the
    sockets and the reconnection timer do afterwards -- the client does
    reconnect, and components may arrive on any socket -- the components
    stay exactly those, and the owner is notified of nothing. *)
Theorem display_disconnect_ends_the_updates
    (url : string) (evs evs' : list Page.Event) :
  Forall (fun ev => Page.owned ev = true) evs →
  Page.awaited (Page.run evs (Page.new url)).1 = [] →
  Forall (fun ev => Page.from_sockets ev = true) evs' →
  let st := (Page.run evs (Page.new url)).1 in
  let st1 := (Page.handle Page.disconnect_called st).1 in
  Page.notified (Page.handle Page.disconnect_called st).2 = ["disconnected"]
  ∧ Renderer.ws_is_open (Page.world st1) = false
  ∧ (∀ k, Renderer.ws (Renderer.client (Page.world st)) ≠ Some k →
          Renderer.sockets (Page.world st1) !! k
          = Renderer.sockets (Page.world st) !! k)
  ∧ Page.deaf st1
  ∧ DisplaySystem.getComponents (Page.system (Page.run evs' st1).1)
    = DisplaySystem.getComponents (Page.system st)
  ∧ Page.notified (Page.run evs' st1).2 = [].
Proof.
  intros Hall Haw Hall' st st1.
  pose proof (page_subscribed url evs Hall) as Hinv. cbv zeta in Hinv.
  fold st in Hinv, Haw.
  destruct (display_disconnect_client (Page.system st))
    as (Hs & Hoff & Hother & Hc & _ & Hn).
  assert (Hst1 : st1 = {| Page.system := (DisplaySystem.disconnect (Page.system st)).1;
                          Page.awaited := Page.awaited st |}).
  { unfold st1. simpl. by destruct (DisplaySystem.disconnect (Page.system st)). }
  assert (Hes : (Page.handle Page.disconnect_called st).2
                = (DisplaySystem.disconnect (Page.system st)).2).
  { simpl. by destruct (DisplaySystem.disconnect (Page.system st)). }
  assert (Hdeaf : Page.deaf st1).
  { rewrite Hst1. split; [|done]. unfold Page.world in *. simpl. rewrite Hs.
    destruct (DisplaySystem.subscriptionCleanup (Page.system st));
      destruct Hinv as [->|[-> ?]]; done. }
  destruct (deaf_run evs' st1 Hdeaf Hall') as (_ & Hc' & _ & Hn').
  rewrite Hes. split_and!; try done.
  - by rewrite Hst1.
  - by rewrite Hst1.
  - unfold DisplaySystem.getComponents. rewrite Hc', Hst1. simpl. by rewrite Hc.
Qed.

(** The page mounted twice has sockets 1 and 2 open.  [disconnect()]
    closes socket 2 and leaves socket 1 open; the notification that then
    arrives on socket 1 is not shown. *)
Lemma display_disconnect_ends_the_updates_witness :
  let st := (Page.run page_mounted_twice (Page.new renderer_url)).1 in
  let st1 := (Page.handle Page.disconnect_called st).1 in
  let evs' := [Page.client_event
                 (Renderer.ws_message 1 (renderer_data_of notification))] in
  Forall (fun ev => Page.owned ev = true) page_mounted_twice
  ∧ Page.awaited st = []
  ∧ Forall (fun ev => Page.from_sockets ev = true) evs'
  ∧ Renderer.sockets (Page.world st)
    = [Renderer.CLOSED; Renderer.OPEN; Renderer.OPEN]
  ∧ Renderer.sockets (Page.world st1)
    = [Renderer.CLOSED; Renderer.OPEN; Renderer.CLOSING]
  ∧ DisplaySystem.getComponents (Page.system (Page.run evs' st1).1) = [card].
Proof.
  intros st st1 evs'.
  assert (Hall : Forall (fun ev => Page.owned ev = true) page_mounted_twice)
    by (repeat constructor).
  assert (Hall' : Forall (fun ev => Page.from_sockets ev = true) evs')
    by (repeat constructor).
  split; [exact Hall |]. split; [reflexivity |]. split; [exact Hall' |].
  split; [reflexivity |]. split; [reflexivity |].
  destruct (display_disconnect_ends_the_updates renderer_url page_mounted_twice evs'
              Hall eq_refl Hall')
    as (_ & _ & _ & _ & Hc & _).
  exact Hc.
Defined.
